(** * Ticket service: a shallow embedding of [index.js] and [server/index.js]

    The repository holds two Express applications over one SQLite table
    [tickets]: the one at the repository root ([index.js], module [Root]
    below) and the one under [server/] ([server/index.js], module [Server]).
    Each route handler is embedded as a function in a small state-and-trace
    monad over the table; the SQLite statements the handlers issue are given
    their semantics on a list of rows kept in rowid order.

    What the handlers obtain from their collaborators (the identifier from
    [uuidv4()], the payload from [qrcode.toDataURL], the database clock
    [CURRENT_TIMESTAMP], the application clock [moment().format(..)]) is read
    from an environment [env], one per request.  Request fields are JSON
    strings or absent ([option string]); engine faults of SQLite (disk, lock)
    are outside the model, so the [err] argument of a callback is set exactly
    when a table constraint rejects the statement. *)

From stdpp Require Import base option list strings sorting.

(** ** The row of table [tickets] *)

Record ticket := Ticket {
  id : string;
  buyer_name : string;
  buyer_email : option string;
  event_name : string;
  created_at : string;
  status : string;
  qr_code : string
}.

Global Instance ticket_eq_dec : EqDecision ticket.
Proof. solve_decision. Defined.

(** The two status literals of the source. *)
Definition Valido : string := "Válido".
Definition Canjeado : string := "Canjeado".

Definition set_status (s : string) (r : ticket) : ticket :=
  {| id := id r; buyer_name := buyer_name r; buyer_email := buyer_email r;
     event_name := event_name r; created_at := created_at r;
     status := s; qr_code := qr_code r |}.

(** Rows in rowid (insertion) order. *)
Abbreviation table := (list ticket).

(** ** SQLite statements issued by the handlers *)

(** The one schema difference: [qr_code TEXT] at the root,
    [qr_code TEXT UNIQUE] under [server/]. *)
Record schema := Schema { qr_code_unique : bool }.

(** Statements passed to [db.run]. *)
Inductive sql_write :=
  (** [INSERT INTO tickets (id, buyer_name, buyer_email, event_name, qr_code)
      VALUES (?, ?, ?, ?, ?)] *)
  | INSERT_INTO_tickets (i bn : string) (be : option string) (en qr : string)
  (** [UPDATE tickets SET status = s WHERE id = ? AND status = old] *)
  | UPDATE_status_WHERE_id_AND_status (s i old : string)
  (** [UPDATE tickets SET status = ? WHERE id = ?] *)
  | UPDATE_status_WHERE_id (s i : string)
  (** [DELETE FROM tickets WHERE id = ?] *)
  | DELETE_WHERE_id (i : string).

(** Statements passed to [db.get] and [db.all]. *)
Inductive sql_read :=
  (** [SELECT * FROM tickets ORDER BY created_at DESC] *)
  | SELECT_ORDER_BY_created_at_DESC
  (** [SELECT * FROM tickets WHERE id = ?] *)
  | SELECT_WHERE_id (i : string).

(** The callback's [(err, result)] pair. *)
Inductive db_result (A : Type) :=
  | DbErr
  | DbOk (a : A).
Arguments DbErr {A}.
Arguments DbOk {A} a.

(** [ORDER BY created_at DESC]: the column holds text, compared bytewise;
    a row comes before another when its [created_at] is not smaller. *)
Definition created_at_desc (r1 r2 : ticket) : Prop :=
  String.le (created_at r2) (created_at r1).

Global Instance created_at_desc_dec : RelDecision created_at_desc.
Proof. intros r1 r2. unfold created_at_desc. apply _. Defined.

Definition id_is (i : string) (r : ticket) : Prop := id r = i.
Global Instance id_is_dec i r : Decision (id_is i r).
Proof. unfold id_is. apply _. Defined.

Definition id_and_status_are (i s : string) (r : ticket) : Prop :=
  id r = i ∧ status r = s.
Global Instance id_and_status_are_dec i s r : Decision (id_and_status_are i s r).
Proof. unfold id_and_status_are. apply _. Defined.

Definition qr_code_is (q : string) (r : ticket) : Prop := qr_code r = q.
Global Instance qr_code_is_dec q r : Decision (qr_code_is q r).
Proof. unfold qr_code_is. apply _. Defined.

Global Arguments created_at_desc_dec : simpl never.
Global Arguments id_is_dec : simpl never.
Global Arguments id_and_status_are_dec : simpl never.
Global Arguments qr_code_is_dec : simpl never.

(** [UPDATE ... SET status = s WHERE P]: every row matching [P] is written
    (also when it already holds [s]) and counted in [changes]. *)
Definition update_status (P : ticket → Prop) `{∀ r, Decision (P r)}
    (s : string) (t : table) : nat * table :=
  (length (filter P t),
   (λ r, if decide (P r) then set_status s r else r) <$> t).

(** [INSERT]: [id] is the primary key, [qr_code] is unique where the schema
    says so; [created_at] and [status] take their column defaults. *)
Definition insert_ticket (sc : schema) (now : string)
    (i bn : string) (be : option string) (en qr : string) (t : table)
    : db_result (nat * table) :=
  if decide (Exists (id_is i) t) then DbErr
  else if qr_code_unique sc && bool_decide (Exists (qr_code_is qr) t) then DbErr
  else DbOk (1, t ++ [ {| id := i; buyer_name := bn; buyer_email := be;
                           event_name := en; created_at := now;
                           status := Valido; qr_code := qr |} ]).

(** [db.run]: the error, or [this.changes] and the table after. *)
Definition exec_write (sc : schema) (now : string) (q : sql_write) (t : table)
    : db_result (nat * table) :=
  match q with
  | INSERT_INTO_tickets i bn be en qr => insert_ticket sc now i bn be en qr t
  | UPDATE_status_WHERE_id_AND_status s i old =>
      DbOk (update_status (id_and_status_are i old) s t)
  | UPDATE_status_WHERE_id s i =>
      DbOk (update_status (id_is i) s t)
  | DELETE_WHERE_id i =>
      DbOk (length (filter (id_is i) t), filter (λ r, ¬ id_is i r) t)
  end.

(** [ORDER BY created_at DESC] over the rows in rowid order: a row goes
    before the first row whose [created_at] is not greater, so rows with
    equal [created_at] keep their rowid order. *)
Fixpoint insert_by_created_at (r : ticket) (l : list ticket) : list ticket :=
  match l with
  | [] => [r]
  | x :: l' =>
      if decide (created_at_desc r x) then r :: x :: l'
      else x :: insert_by_created_at r l'
  end.

Definition order_by_created_at_desc (t : table) : list ticket :=
  foldr insert_by_created_at [] t.

(** The rows a [SELECT] produces, in result order. *)
Definition exec_read (q : sql_read) (t : table) : list ticket :=
  match q with
  | SELECT_ORDER_BY_created_at_DESC => order_by_created_at_desc t
  | SELECT_WHERE_id i => filter (id_is i) t
  end.

(** ** Collaborators and effects *)

(** What one request reads from outside the table. *)
Record env := Env {
  (** the value [uuidv4()] returns *)
  uuidv4 : string;
  (** [qrcode.toDataURL]; [None] when the promise rejects *)
  toDataURL : string → option string;
  (** SQLite's clock, the default of column [created_at] *)
  CURRENT_TIMESTAMP : string;
  (** [moment().format(fmt)], [None] for the call without argument *)
  moment_format : option string → string
}.

(** The calls a handler makes, in order. *)
Inductive effect :=
  | CallUuidv4
  | CallToDataURL (text : string)
  | CallMomentFormat (fmt : option string)
  | DbRun (q : sql_write)
  | DbGet (q : sql_read)
  | DbAll (q : sql_read).

Record outcome (A : Type) := Outcome {
  value : A;
  tickets : table;
  effects : list effect
}.
Arguments Outcome {A} value tickets effects.
Arguments value {A} o.
Arguments tickets {A} o.
Arguments effects {A} o.

(** A handler: from the table before to its result, the table after and
    the calls made. *)
Definition M (A : Type) : Type := table → outcome A.

Global Instance M_ret : MRet M := λ A a t, Outcome a t [].
Global Instance M_bind : MBind M := λ A B k m t,
  let o1 := m t in
  let o2 := k (value o1) (tickets o1) in
  Outcome (value o2) (tickets o2) (effects o1 ++ effects o2).

Definition call_uuidv4 (e : env) : M string :=
  λ t, Outcome (uuidv4 e) t [CallUuidv4].

Definition call_toDataURL (e : env) (text : string) : M (option string) :=
  λ t, Outcome (toDataURL e text) t [CallToDataURL text].

Definition call_moment_format (e : env) (fmt : option string) : M string :=
  λ t, Outcome (moment_format e fmt) t [CallMomentFormat fmt].

(** [db.run(sql, params, function (err) { this.changes })] *)
Definition db_run (sc : schema) (e : env) (q : sql_write) : M (db_result nat) :=
  λ t, match exec_write sc (CURRENT_TIMESTAMP e) q t with
       | DbErr => Outcome DbErr t [DbRun q]
       | DbOk (changes, t') => Outcome (DbOk changes) t' [DbRun q]
       end.

(** [db.get(sql, params, (err, row) => ..)]: the first row, if any. *)
Definition db_get (q : sql_read) : M (db_result (option ticket)) :=
  λ t, Outcome (DbOk (head (exec_read q t))) t [DbGet q].

(** [db.all(sql, params, (err, rows) => ..)] *)
Definition db_all (q : sql_read) : M (db_result (list ticket)) :=
  λ t, Outcome (DbOk (exec_read q t)) t [DbAll q].

(** ** Requests and responses *)

(** JavaScript's [!x] on a request field: absent, or the empty string. *)
Definition falsy (x : option string) : bool :=
  match x with
  | None => true
  | Some s => bool_decide (s = "")
  end.

(** The value a present field binds. *)
Definition str (x : option string) : string :=
  match x with
  | Some s => s
  | None => ""
  end.

(** The JSON bodies the handlers send. *)
Inductive json :=
  (** [{ error }] *)
  | JError (error : string)
  (** a row, or the object the create handler builds *)
  | JTicket (t : ticket)
  (** an array of rows *)
  | JTickets (rows : list ticket)
  (** [{ valid, already_redeemed?, message, ticket? }] *)
  | JValidation (valid : bool) (already_redeemed : option bool)
                (message : string) (ticket : option ticket)
  (** [{ success?, message }] *)
  | JMessage (success : option bool) (message : string).

Record response := Response { code : nat; body : json }.

(** [res.status(c).json(b)] and [res.json(b)]. *)
Definition res_status_json (c : nat) (b : json) : M response :=
  mret (Response c b).
Definition res_json (b : json) : M response := mret (Response 200 b).

Inductive request :=
  (** [POST /api/tickets] with body [{buyer_name, buyer_email, event_name}] *)
  | POST_tickets (buyer_name buyer_email event_name : option string)
  (** [GET /api/tickets] *)
  | GET_tickets
  (** [GET /api/tickets/:id] *)
  | GET_tickets_id (id : string)
  (** [POST /api/tickets/validate] with body [{ticket_id}] *)
  | POST_tickets_validate (ticket_id : option string)
  (** [POST /api/tickets/redeem] with body [{ticket_id}] *)
  | POST_tickets_redeem (ticket_id : option string)
  (** [DELETE /api/tickets/:id] *)
  | DELETE_tickets_id (id : string).

(** ** [index.js] *)

Module Root.

Definition tickets_schema : schema := {| qr_code_unique := false |}.

Definition post_tickets (e : env)
    (buyer_name buyer_email event_name : option string) : M response :=
  if falsy buyer_name || falsy event_name then
    res_status_json 400
      (JError "Nombre del comprador y evento son requeridos")
  else
    id ← call_uuidv4 e;
    qr ← call_toDataURL e id;
    match qr with
    | None => res_status_json 500 (JError "Error interno del servidor")
    | Some qr_code =>
        err ← db_run tickets_schema e
                (INSERT_INTO_tickets id (str buyer_name) buyer_email
                                     (str event_name) qr_code);
        match err with
        | DbErr => res_status_json 500 (JError "Error creando el ticket")
        | DbOk _ =>
            now ← call_moment_format e None;
            res_json (JTicket {| id := id;
                                 buyer_name := str buyer_name;
                                 buyer_email := buyer_email;
                                 event_name := str event_name;
                                 status := Valido;
                                 created_at := now;
                                 qr_code := qr_code |})
        end
    end.

Definition get_tickets : M response :=
  r ← db_all SELECT_ORDER_BY_created_at_DESC;
  match r with
  | DbErr => res_status_json 500 (JError "Error obteniendo tickets")
  | DbOk rows => res_json (JTickets rows)
  end.

Definition get_tickets_id (id : string) : M response :=
  r ← db_get (SELECT_WHERE_id id);
  match r with
  | DbErr => res_status_json 500 (JError "Error obteniendo ticket")
  | DbOk None => res_status_json 404 (JError "Ticket no encontrado")
  | DbOk (Some row) => res_json (JTicket row)
  end.

Definition post_tickets_validate (ticket_id : option string) : M response :=
  if falsy ticket_id then
    res_status_json 400 (JError "ID del ticket es requerido")
  else
    r ← db_get (SELECT_WHERE_id (str ticket_id));
    match r with
    | DbErr => res_status_json 500 (JError "Error validando ticket")
    | DbOk None =>
        res_json (JValidation false None "Ticket no encontrado" None)
    | DbOk (Some row) =>
        if decide (status row = Canjeado) then
          res_json (JValidation false None "Ticket ya fue canjeado" (Some row))
        else
          res_json (JValidation true None "Ticket válido" (Some row))
    end.

(** The statement compares and assigns the double-quoted ["Canjeado"] and
    ["Válido"]; the table has no column of either name, so SQLite reads
    them as string literals. *)
Definition post_tickets_redeem (e : env) (ticket_id : option string)
    : M response :=
  if falsy ticket_id then
    res_status_json 400 (JError "ID del ticket es requerido")
  else
    r ← db_run tickets_schema e
          (UPDATE_status_WHERE_id_AND_status Canjeado (str ticket_id) Valido);
    match r with
    | DbErr => res_status_json 500 (JError "Error canjeando ticket")
    | DbOk changes =>
        if decide (changes = 0) then
          res_status_json 400
            (JError "Ticket no encontrado o ya fue canjeado")
        else
          res_json (JMessage None "Ticket canjeado exitosamente")
    end.

Definition delete_tickets_id (e : env) (id : string) : M response :=
  r ← db_run tickets_schema e (DELETE_WHERE_id id);
  match r with
  | DbErr => res_status_json 500 (JError "Error eliminando ticket")
  | DbOk changes =>
      if decide (changes = 0) then
        res_status_json 404 (JError "Ticket no encontrado")
      else
        res_json (JMessage None "Ticket eliminado exitosamente")
  end.

(** The router. *)
Definition handle (e : env) (q : request) : M response :=
  match q with
  | POST_tickets bn be en => post_tickets e bn be en
  | GET_tickets => get_tickets
  | GET_tickets_id i => get_tickets_id i
  | POST_tickets_validate i => post_tickets_validate i
  | POST_tickets_redeem i => post_tickets_redeem e i
  | DELETE_tickets_id i => delete_tickets_id e i
  end.

End Root.

(** ** [server/index.js] *)

Module Server.

Definition tickets_schema : schema := {| qr_code_unique := true |}.

Definition post_tickets (e : env)
    (buyer_name buyer_email event_name : option string) : M response :=
  if falsy buyer_name || falsy event_name then
    res_status_json 400
      (JError "Nombre del comprador y nombre del evento son requeridos")
  else
    ticketId ← call_uuidv4 e;
    qr ← call_toDataURL e ticketId;
    match qr with
    | None => res_status_json 500 (JError "Error interno del servidor")
    | Some qrCode =>
        err ← db_run tickets_schema e
                (INSERT_INTO_tickets ticketId (str buyer_name) buyer_email
                                     (str event_name) qrCode);
        match err with
        | DbErr => res_status_json 500 (JError "Error al crear el ticket")
        | DbOk _ =>
            now ← call_moment_format e (Some "YYYY-MM-DD HH:mm:ss");
            res_json (JTicket {| id := ticketId;
                                 buyer_name := str buyer_name;
                                 buyer_email := buyer_email;
                                 event_name := str event_name;
                                 created_at := now;
                                 status := Valido;
                                 qr_code := qrCode |})
        end
    end.

Definition get_tickets : M response :=
  r ← db_all SELECT_ORDER_BY_created_at_DESC;
  match r with
  | DbErr => res_status_json 500 (JError "Error al obtener tickets")
  | DbOk rows => res_json (JTickets rows)
  end.

Definition get_tickets_id (id : string) : M response :=
  r ← db_get (SELECT_WHERE_id id);
  match r with
  | DbErr => res_status_json 500 (JError "Error al obtener ticket")
  | DbOk None => res_status_json 404 (JError "Ticket no encontrado")
  | DbOk (Some row) => res_json (JTicket row)
  end.

Definition post_tickets_validate (ticket_id : option string) : M response :=
  if falsy ticket_id then
    res_status_json 400 (JError "ID del ticket es requerido")
  else
    r ← db_get (SELECT_WHERE_id (str ticket_id));
    match r with
    | DbErr => res_status_json 500 (JError "Error al validar ticket")
    | DbOk None =>
        res_json (JValidation false None "Ticket no encontrado" None)
    | DbOk (Some row) =>
        if decide (status row = Canjeado) then
          res_json (JValidation false (Some true) "Ticket ya fue canjeado" None)
        else
          res_json (JValidation true None "Ticket válido" (Some row))
    end.

Definition post_tickets_redeem (e : env) (ticket_id : option string)
    : M response :=
  if falsy ticket_id then
    res_status_json 400 (JError "ID del ticket es requerido")
  else
    r ← db_run tickets_schema e
          (UPDATE_status_WHERE_id Canjeado (str ticket_id));
    match r with
    | DbErr => res_status_json 500 (JError "Error al canjear ticket")
    | DbOk changes =>
        if decide (changes = 0) then
          res_status_json 404 (JError "Ticket no encontrado")
        else
          res_json (JMessage (Some true)
            "🎉 ¡Ticket canjeado exitosamente! ¡Que disfrute el evento!")
    end.

Definition delete_tickets_id (e : env) (id : string) : M response :=
  r ← db_run tickets_schema e (DELETE_WHERE_id id);
  match r with
  | DbErr => res_status_json 500 (JError "Error al eliminar ticket")
  | DbOk changes =>
      if decide (changes = 0) then
        res_status_json 404 (JError "Ticket no encontrado")
      else
        res_json (JMessage (Some true) "Ticket eliminado exitosamente")
  end.

(** The router. *)
Definition handle (e : env) (q : request) : M response :=
  match q with
  | POST_tickets bn be en => post_tickets e bn be en
  | GET_tickets => get_tickets
  | GET_tickets_id i => get_tickets_id i
  | POST_tickets_validate i => post_tickets_validate i
  | POST_tickets_redeem i => post_tickets_redeem e i
  | DELETE_tickets_id i => delete_tickets_id e i
  end.

End Server.

(** ** Both applications, and runs of requests *)

Inductive impl := root | server.

Definition handle (a : impl) : env → request → M response :=
  match a with
  | root => Root.handle
  | server => Server.handle
  end.

(** The table after serving the requests of [qs] one after the other. *)
Fixpoint run (a : impl) (qs : list (env * request)) (t : table) : table :=
  match qs with
  | [] => t
  | (e, q) :: qs' => run a qs' (tickets (handle a e q t))
  end.

(** The tables an application can hold: it starts with the empty table
    ([CREATE TABLE IF NOT EXISTS]) and only its handlers write to it. *)
Inductive reachable (a : impl) : table → Prop :=
  | reachable_init : reachable a []
  | reachable_step t e q :
      reachable a t → reachable a (tickets (handle a e q t)).

(** The row with a given id, as [SELECT * FROM tickets WHERE id = ?] finds it. *)
Definition lookup_id (i : string) (t : table) : option ticket :=
  head (filter (id_is i) t).

(** A request that redeems or deletes the ticket [i]. *)
Definition redeems (i : string) (q : request) : Prop :=
  q = POST_tickets_redeem (Some i).
Definition deletes (i : string) (q : request) : Prop :=
  q = DELETE_tickets_id i.

Global Instance request_eq_dec : EqDecision request.
Proof. solve_decision. Defined.
Global Instance redeems_dec i q : Decision (redeems i q).
Proof. unfold redeems. apply _. Defined.
Global Instance deletes_dec i q : Decision (deletes i q).
Proof. unfold deletes. apply _. Defined.

(** ** Notions the properties are stated with *)

(** What redeeming does to a row with the redeemed id: [index.js] writes it
    when it is [Valido], [server/index.js] writes it whatever it holds. *)
Definition redeem_row (a : impl) (r : ticket) : ticket :=
  match a with
  | root => if decide (status r = Valido) then set_status Canjeado r else r
  | server => set_status Canjeado r
  end.

(** The row an accepted create request stores. *)
Definition created_row (e : env) (bn be en : option string) (qr : string)
    : ticket :=
  {| id := uuidv4 e; buyer_name := str bn; buyer_email := be;
     event_name := str en; created_at := CURRENT_TIMESTAMP e;
     status := Valido; qr_code := qr |}.

(** The format argument each application passes to [moment().format]. *)
Definition moment_fmt (a : impl) : option string :=
  match a with
  | root => None
  | server => Some "YYYY-MM-DD HH:mm:ss"
  end.

(** The object an accepted create request answers with. *)
Definition created_response (a : impl) (e : env) (bn be en : option string)
    (qr : string) : ticket :=
  {| id := uuidv4 e; buyer_name := str bn; buyer_email := be;
     event_name := str en; created_at := moment_format e (moment_fmt a);
     status := Valido; qr_code := qr |}.

(** [id TEXT PRIMARY KEY]: no two rows share an id. *)
Definition primary_key (t : table) : Prop := NoDup (id <$> t).

(** Every status is one of the two literals. *)
Definition statuses_ok (t : table) : Prop :=
  Forall (λ r, status r = Valido ∨ status r = Canjeado) t.

(** The answer of a validate request for a non-empty id. *)
Definition validation (a : impl) (row : option ticket) : json :=
  match row with
  | None => JValidation false None "Ticket no encontrado" None
  | Some r =>
      if decide (status r = Canjeado) then
        match a with
        | root => JValidation false None "Ticket ya fue canjeado" (Some r)
        | server => JValidation false (Some true) "Ticket ya fue canjeado" None
        end
      else JValidation true None "Ticket válido" (Some r)
  end.


(** Every row names its buyer and its event. *)
Definition names_ok (t : table) : Prop :=
  Forall (λ r, buyer_name r ≠ "" ∧ event_name r ≠ "") t.

(** [qr_code TEXT UNIQUE]: no two rows share a payload. *)
Definition qr_codes_unique (t : table) : Prop := NoDup (qr_code <$> t).

(** A call that reads the table: [db.get] or [db.all]. *)
Definition is_db_read (ef : effect) : Prop :=
  match ef with
  | DbGet _ | DbAll _ => True
  | _ => False
  end.

(** The [valid] field of a validate answer. *)
Definition answers_valid (r : response) : bool :=
  match body r with
  | JValidation valid _ _ _ => valid
  | _ => false
  end.

(** A request served by a [SELECT] alone. *)
Definition reads_only (q : request) : Prop :=
  match q with
  | GET_tickets | GET_tickets_id _ | POST_tickets_validate _ => True
  | _ => False
  end.

(** Sample values for the examples. *)
Definition env0 : env :=
  {| uuidv4 := "u1";
     toDataURL := λ s, Some ("data:image/png;base64," +:+ s);
     CURRENT_TIMESTAMP := "2024-05-01 10:00:00";
     moment_format := λ f, match f with
                           | None => "2024-05-01T07:00:00-03:00"
                           | Some _ => "2024-05-01 07:00:00"
                           end |}.

Definition ana (s : string) : ticket :=
  {| id := "u1"; buyer_name := "Ana"; buyer_email := None;
     event_name := "Concert"; created_at := "2024-05-01 10:00:00";
     status := s; qr_code := "data:image/png;base64,u1" |}.

Definition env1 : env :=
  {| uuidv4 := "u2"; toDataURL := toDataURL env0;
     CURRENT_TIMESTAMP := "2024-05-02 09:30:00";
     moment_format := moment_format env0 |}.

Definition bo : ticket :=
  {| id := "u2"; buyer_name := "Bo"; buyer_email := None;
     event_name := "Opera"; created_at := "2024-05-02 09:30:00";
     status := Valido; qr_code := "data:image/png;base64,u2" |}.

(** An encoder that yields the payload of ["u1"] whatever the id. *)
Definition env_same_payload : env :=
  {| uuidv4 := "u2"; toDataURL := λ _, Some "data:image/png;base64,u1";
     CURRENT_TIMESTAMP := "2024-05-02 09:30:00";
     moment_format := moment_format env0 |}.

(** An encoder that rejects every id. *)
Definition env_no_payload : env :=
  {| uuidv4 := "u9"; toDataURL := λ _, None;
     CURRENT_TIMESTAMP := "2024-05-03 08:00:00";
     moment_format := moment_format env0 |}.

(** * Properties *)

(** Running a handler: unfold the monad and its primitive calls. *)
Ltac run_M :=
  unfold Root.post_tickets, Root.get_tickets, Root.get_tickets_id,
    Root.post_tickets_validate, Root.post_tickets_redeem,
    Root.delete_tickets_id,
    Server.post_tickets, Server.get_tickets, Server.get_tickets_id,
    Server.post_tickets_validate, Server.post_tickets_redeem,
    Server.delete_tickets_id;
  unfold mbind, M_bind, res_status_json, res_json, mret, M_ret,
    db_get, db_all, db_run, call_uuidv4, call_toDataURL, call_moment_format;
  cbn.

(** Case analysis on the row a [db.get] found. *)
Ltac case_head :=
  match goal with
  | |- context [head ?l] => let Hh := fresh "Hhead" in destruct (head l) eqn:Hh
  end.

(** ** The order of [ORDER BY created_at DESC] *)

Global Instance created_at_desc_trans : Transitive created_at_desc.
Proof. intros x y z Hxy Hyz. unfold created_at_desc in *. by etrans. Qed.

Global Instance created_at_desc_total : Total created_at_desc.
Proof. intros x y. unfold created_at_desc. apply (total String.le). Qed.

Lemma insert_by_created_at_Permutation r l :
  insert_by_created_at r l ≡ₚ r :: l.
Proof.
  induction l as [|x l IH]; [done|]. cbn [insert_by_created_at].
  case_decide; [done|]. rewrite IH. apply Permutation_swap.
Qed.

Lemma insert_by_created_at_Sorted r l :
  Sorted created_at_desc l → Sorted created_at_desc (insert_by_created_at r l).
Proof.
  induction 1 as [|x l Hl IH Hx]; cbn [insert_by_created_at].
  { by repeat constructor. }
  case_decide as Hrx.
  - constructor; [by constructor|by constructor].
  - constructor; [done|].
    assert (created_at_desc x r) as Hxr.
    { by destruct (total created_at_desc r x). }
    destruct Hx as [|y l' Hxy]; cbn [insert_by_created_at];
      [by constructor|]. case_decide; by constructor.
Qed.

Lemma order_by_created_at_desc_Permutation t :
  order_by_created_at_desc t ≡ₚ t.
Proof.
  induction t as [|r t IH]; [done|]. cbn.
  by rewrite insert_by_created_at_Permutation, IH.
Qed.

Lemma order_by_created_at_desc_StronglySorted t :
  StronglySorted created_at_desc (order_by_created_at_desc t).
Proof.
  apply Sorted_StronglySorted; [apply _|].
  induction t as [|r t IH]; [constructor|].
  by apply insert_by_created_at_Sorted.
Qed.

(** ** Rows and statuses *)

Lemma Valido_neq_Canjeado : Valido ≠ Canjeado.
Proof. discriminate. Qed.

Lemma id_set_status s r : id (set_status s r) = id r.
Proof. done. Qed.

Lemma status_set_status s r : status (set_status s r) = s.
Proof. done. Qed.

Lemma set_status_same r : set_status (status r) r = r.
Proof. by destruct r. Qed.

Lemma set_status_idemp s r : set_status s (set_status s r) = set_status s r.
Proof. done. Qed.

Lemma falsy_spec x : falsy x = true ↔ x = None ∨ x = Some "".
Proof.
  destruct x as [s|]; simpl.
  - rewrite bool_decide_eq_true. split; [intros ->; by right|].
    intros [?| [= ->]]; done.
  - split; [by left|done].
Qed.

Lemma falsy_Some_false i : i ≠ "" → falsy (Some i) = false.
Proof. intros Hi. simpl. by apply bool_decide_eq_false. Qed.

(** ** The table after each request *)

Section table_after.
Context (a : impl) (e : env) (t : table).

Lemma tickets_get_tickets : tickets (handle a e GET_tickets t) = t.
Proof. by destruct a. Qed.

Lemma tickets_get_tickets_id i :
  tickets (handle a e (GET_tickets_id i) t) = t.
Proof. destruct a; cbn; run_M; by case_head. Qed.

Lemma tickets_validate x :
  tickets (handle a e (POST_tickets_validate x) t) = t.
Proof.
  destruct a; cbn; run_M; destruct (falsy x); cbn; try done;
    case_head; cbn; try done; by case_decide.
Qed.

Lemma tickets_redeem x :
  tickets (handle a e (POST_tickets_redeem x) t) =
    if falsy x then t
    else (λ r, if decide (id r = str x) then redeem_row a r else r) <$> t.
Proof.
  destruct a; cbn; run_M; destruct (falsy x); cbn; try done.
  - case_decide; cbn; apply list_fmap_ext; intros _ r _; cbn;
      unfold id_and_status_are;
      destruct (decide (id r = str x)), (decide (status r = Valido));
      case_decide; first [done | tauto].
  - case_decide; cbn; apply list_fmap_ext; intros _ r _; cbn;
      unfold id_is; by destruct (decide (id r = str x)).
Qed.

Lemma tickets_delete i :
  tickets (handle a e (DELETE_tickets_id i) t) = filter (λ r, id r ≠ i) t.
Proof. destruct a; cbn; run_M; by case_decide. Qed.

End table_after.

(** A create request either leaves the table as it is and answers with an
    error, or appends one row and answers 200. *)
Lemma post_tickets_cases a e bn be en t :
  let o := handle a e (POST_tickets bn be en) t in
  (code (value o) ≠ 200 ∧ (∃ m, body (value o) = JError m) ∧ tickets o = t) ∨
  (∃ qr, falsy bn = false ∧ falsy en = false ∧
         toDataURL e (uuidv4 e) = Some qr ∧
         ¬ Exists (id_is (uuidv4 e)) t ∧
         value o = Response 200 (JTicket (created_response a e bn be en qr)) ∧
         tickets o = t ++ [created_row e bn be en qr]).
Proof.
  destruct a; cbn; run_M.
  all: destruct (falsy bn) eqn:Hbn; cbn; [left; eauto|].
  all: destruct (falsy en) eqn:Hen; cbn; [left; eauto|].
  all: destruct (toDataURL e (uuidv4 e)) as [qr|] eqn:Hqr; cbn; [|left; eauto].
  all: unfold insert_ticket; cbn.
  all: destruct (decide (Exists (id_is (uuidv4 e)) t)); cbn; [left; eauto|].
  - right. exists qr. done.
  - case_bool_decide; cbn; [left; eauto|]. right. exists qr. done.
Qed.

(** ** Invariants of the table *)

Lemma primary_key_unique t r1 r2 :
  primary_key t → r1 ∈ t → r2 ∈ t → id r1 = id r2 → r1 = r2.
Proof.
  unfold primary_key. induction t as [|x t IH]; cbn; [by intros _ ?%elem_of_nil|].
  rewrite NoDup_cons, !elem_of_cons.
  intros [Hx Ht] [->|H1] [->|H2] Hid; auto.
  - destruct Hx. rewrite Hid. by apply list_elem_of_fmap_2.
  - destruct Hx. rewrite <-Hid. by apply list_elem_of_fmap_2.
Qed.

Lemma id_redeem_row a r : id (redeem_row a r) = id r.
Proof. destruct a; cbn; [by case_decide|done]. Qed.

Lemma status_redeem_row a r :
  status (redeem_row a r) = status r ∨
  (status r = Valido ∧ redeem_row a r = set_status Canjeado r) ∨
  (a = server ∧ redeem_row a r = set_status Canjeado r).
Proof. destruct a; cbn; [case_decide|]; auto. Qed.

Lemma handle_primary_key a e q t :
  primary_key t → primary_key (tickets (handle a e q t)).
Proof.
  unfold primary_key. intros Ht. destruct q as [bn be en| |i|x|x|i].
  - destruct (post_tickets_cases a e bn be en t)
      as [(_ & _ & ->)|(qr & _ & _ & _ & Hid & _ & ->)]; [done|].
    rewrite fmap_app. apply NoDup_app. split_and!; [done| |apply NoDup_singleton].
    intros i Hi ->%list_elem_of_singleton. apply Hid, Exists_exists.
    apply list_elem_of_fmap in Hi as (r & Hr & ?). by exists r.
  - by rewrite tickets_get_tickets.
  - by rewrite tickets_get_tickets_id.
  - by rewrite tickets_validate.
  - rewrite tickets_redeem. destruct (falsy x); [done|].
    rewrite <-list_fmap_compose.
    erewrite list_fmap_ext; [exact Ht|].
    intros _ r _. cbn. case_decide; [apply id_redeem_row|done].
  - rewrite tickets_delete.
    apply (sublist_NoDup _ (id <$> t)); [exact Ht|].
    apply fmap_sublist, sublist_filter.
Qed.

Lemma handle_statuses_ok a e q t :
  statuses_ok t → statuses_ok (tickets (handle a e q t)).
Proof.
  unfold statuses_ok. intros Ht. destruct q as [bn be en| |i|x|x|i].
  - destruct (post_tickets_cases a e bn be en t)
      as [(_ & _ & ->)|(qr & _ & _ & _ & _ & _ & ->)]; [done|].
    apply Forall_app_2; [done|]. apply Forall_singleton. by left.
  - by rewrite tickets_get_tickets.
  - by rewrite tickets_get_tickets_id.
  - by rewrite tickets_validate.
  - rewrite tickets_redeem. destruct (falsy x); [done|].
    apply Forall_fmap. eapply Forall_impl; [exact Ht|].
    intros r Hr. cbn. case_decide; [|done].
    destruct (status_redeem_row a r) as [->|[[_ ->]|[_ ->]]]; auto.
  - rewrite tickets_delete. apply Forall_forall. intros r Hr%list_elem_of_filter.
    eapply Forall_forall in Ht; [exact Ht|apply Hr].
Qed.

Lemma reachable_primary_key a t : reachable a t → primary_key t.
Proof.
  induction 1; [apply NoDup_nil_2|by apply handle_primary_key].
Qed.

Lemma reachable_statuses_ok a t : reachable a t → statuses_ok t.
Proof.
  induction 1; [apply Forall_nil_2|by apply handle_statuses_ok].
Qed.

(** ** Create: incomplete input *)

(** C4. A create request whose [buyer_name] or [event_name] is missing or
    empty is answered with 400 and an error body by both applications; the
    table is left as it was and the handler has made no call at all before
    answering: no identifier drawn, no QR payload encoded, no statement run. *)
Theorem create_rejects_missing_fields a e bn be en t :
  bn = None ∨ bn = Some "" ∨ en = None ∨ en = Some "" →
  let o := handle a e (POST_tickets bn be en) t in
  code (value o) = 400 ∧ (∃ m, body (value o) = JError m) ∧
  tickets o = t ∧ effects o = [].
Proof.
  intros H.
  assert (falsy bn || falsy en = true) as Hf.
  { apply orb_true_iff. rewrite !falsy_spec. tauto. }
  destruct a; cbn; run_M; rewrite Hf; cbn; eauto.
Qed.

Lemma create_rejects_missing_fields_witness :
  let o := handle server env0 (POST_tickets (Some "Ana") None (Some "")) [ana Valido] in
  code (value o) = 400 ∧ (∃ m, body (value o) = JError m) ∧
  tickets o = [ana Valido] ∧ effects o = [].
Proof.
  apply (create_rejects_missing_fields server env0 (Some "Ana") None (Some "")).
  right; right; right; reflexivity.
Defined.

(** ** Validate and redeem: the empty id *)

(** C10. In both applications a validate or redeem request whose
    [ticket_id] is the empty string gets the very answer of a request without
    [ticket_id]: 400 with the missing-id message, the table untouched and no
    statement sent to the store. *)
Theorem empty_ticket_id_is_missing a e t :
  let missing :=
    Outcome (Response 400 (JError "ID del ticket es requerido")) t [] in
  handle a e (POST_tickets_validate (Some "")) t = missing ∧
  handle a e (POST_tickets_validate None) t = missing ∧
  handle a e (POST_tickets_redeem (Some "")) t = missing ∧
  handle a e (POST_tickets_redeem None) t = missing.
Proof. by destruct a. Qed.

(** For contrast: a non-empty id that no row carries does reach the store
    and is reported as not found. *)
Lemma unknown_ticket_id_is_looked_up a e i t :
  i ≠ "" → filter (id_is i) t = [] →
  handle a e (POST_tickets_validate (Some i)) t =
    Outcome (Response 200 (JValidation false None "Ticket no encontrado" None))
            t [DbGet (SELECT_WHERE_id i)].
Proof.
  intros Hi Hf. destruct a; cbn; run_M.
  all: rewrite bool_decide_eq_false_2 by done; cbn; by rewrite Hf.
Qed.

(** ** List *)

(** C6. In both applications the list request answers 200 with all rows of
    the table (a permutation of it) in descending order of [created_at], and
    leaves the table as it was; on the empty table the answer is 200 with the
    empty array. *)
Theorem list_is_sorted_by_created_at_desc a e t :
  ∃ rows,
    value (handle a e GET_tickets t) = Response 200 (JTickets rows) ∧
    rows ≡ₚ t ∧
    StronglySorted created_at_desc rows ∧
    tickets (handle a e GET_tickets t) = t ∧
    value (handle a e GET_tickets []) = Response 200 (JTickets []).
Proof.
  exists (order_by_created_at_desc t).
  split_and!; try by destruct a.
  - apply order_by_created_at_desc_Permutation.
  - apply order_by_created_at_desc_StronglySorted.
Qed.

(** ** Delete *)

(** C8. In both applications the delete request removes the rows whose id
    is the given one and no other: the table after is the table before
    without them, in the same order.  When no row has the id the answer is
    404 and the table is unchanged; otherwise the answer is 200 and the id
    is gone. *)
Theorem delete_removes_exactly_that_row a e i t :
  let o := handle a e (DELETE_tickets_id i) t in
  tickets o = filter (λ r, id r ≠ i) t ∧
  (∀ r, r ∈ tickets o ↔ r ∈ t ∧ id r ≠ i) ∧
  lookup_id i (tickets o) = None ∧
  match lookup_id i t with
  | None => code (value o) = 404 ∧ tickets o = t
  | Some _ => code (value o) = 200
  end.
Proof.
  cbn. rewrite tickets_delete. split_and!; [done| | |].
  - intros r. rewrite list_elem_of_filter. tauto.
  - unfold lookup_id. apply head_None.
    induction t as [|x t IH]; [done|].
    rewrite filter_cons. case_decide as Hx; [|done].
    rewrite filter_cons_False; [done|]. unfold id_is. done.
  - unfold lookup_id.
    assert (filter (λ r, id r ≠ i) t = filter (λ r, ¬ id_is i r) t) as Heq by done.
    destruct (filter (id_is i) t) as [|r l] eqn:Hf; cbn.
    + split.
      * destruct a; cbn; run_M; by rewrite Hf.
      * clear Heq. induction t as [|x t IH]; [done|].
        rewrite filter_cons in Hf. case_decide as Hx; [done|].
        rewrite filter_cons_True by done. f_equal. by apply IH.
    + destruct a; cbn; run_M; by rewrite Hf.
Qed.

(** ** Redeem *)

Lemma filter_nil_iff {A} (P : A → Prop) `{∀ x, Decision (P x)} (l : list A) :
  filter P l = [] ↔ ¬ Exists P l.
Proof.
  induction l as [|x l IH].
  - split; [intros _ H'; inv H'|done].
  - rewrite filter_cons, Exists_cons. case_decide as Hx.
    + split; [done|]. intros Hn. destruct Hn. by left.
    + rewrite IH. tauto.
Qed.

Lemma changes_zero_iff {A} (P : A → Prop) `{∀ x, Decision (P x)} (l : list A) :
  length (filter P l) = 0 ↔ ¬ Exists P l.
Proof.
  rewrite <-filter_nil_iff. split; [apply nil_length_inv|by intros ->].
Qed.

(** [index.js]: the update is guarded by the status, so the answer is 200
    exactly when a row has the id and is [Valido]. *)
Lemma root_redeem_value e i t :
  i ≠ "" →
  value (handle root e (POST_tickets_redeem (Some i)) t) =
    if decide (Exists (id_and_status_are i Valido) t)
    then Response 200 (JMessage None "Ticket canjeado exitosamente")
    else Response 400 (JError "Ticket no encontrado o ya fue canjeado").
Proof.
  intros Hi. cbn. run_M. rewrite bool_decide_eq_false_2 by done. cbn.
  destruct (decide (length (filter (id_and_status_are i Valido) t) = 0)) as [H0|H0];
    cbn; rewrite changes_zero_iff in H0; by case_decide.
Qed.

(** [server/index.js]: the update looks at the id alone, so the answer is
    200 whenever a row has the id. *)
Lemma server_redeem_value e i t :
  i ≠ "" →
  value (handle server e (POST_tickets_redeem (Some i)) t) =
    if decide (Exists (id_is i) t)
    then Response 200 (JMessage (Some true)
           "🎉 ¡Ticket canjeado exitosamente! ¡Que disfrute el evento!")
    else Response 404 (JError "Ticket no encontrado").
Proof.
  intros Hi. cbn. run_M. rewrite bool_decide_eq_false_2 by done. cbn.
  destruct (decide (length (filter (id_is i) t) = 0)) as [H0|H0];
    cbn; rewrite changes_zero_iff in H0; by case_decide.
Qed.

(** What C1 asks for holds of [index.js]: when no row has the id, or the
    rows that have it are not [Valido], the answer is 400 with the
    not-found-or-redeemed message and the table is unchanged. *)
Lemma root_redeem_conflict_or_not_found e i t :
  i ≠ "" →
  (∀ r, r ∈ t → id r = i → status r ≠ Valido) →
  let o := handle root e (POST_tickets_redeem (Some i)) t in
  value o = Response 400 (JError "Ticket no encontrado o ya fue canjeado") ∧
  tickets o = t.
Proof.
  intros Hi Hno. cbn zeta. split.
  - rewrite root_redeem_value by done. case_decide as Hex; [|done].
    apply Exists_exists in Hex as (r & Hr & Hid & Hst). by destruct (Hno r).
  - rewrite tickets_redeem, falsy_Some_false by done.
    rewrite <-(list_fmap_id t) at 2. apply list_fmap_ext.
    intros _ r Hr%list_elem_of_lookup_2. cbn. case_decide as Hid; [|done].
    case_decide as Hst; [|done]. by destruct (Hno r).
Qed.

(** C1, at a table holding one redeemed ticket: [server/index.js] answers
    the redeem request for it with 200 and its success message, writing the
    row once more, where the claim (and [index.js]) has the request fail. *)
Theorem server_redeems_a_redeemed_ticket_again :
  handle server env0 (POST_tickets_redeem (Some "u1")) [ana Canjeado] =
    Outcome
      (Response 200 (JMessage (Some true)
         "🎉 ¡Ticket canjeado exitosamente! ¡Que disfrute el evento!"))
      [ana Canjeado]
      [DbRun (UPDATE_status_WHERE_id Canjeado "u1")] ∧
  handle root env0 (POST_tickets_redeem (Some "u1")) [ana Canjeado] =
    Outcome
      (Response 400 (JError "Ticket no encontrado o ya fue canjeado"))
      [ana Canjeado]
      [DbRun (UPDATE_status_WHERE_id_AND_status Canjeado "u1" Valido)].
Proof. split; reflexivity. Qed.

(** ** Validate *)

Lemma validate_value a e i t :
  i ≠ "" →
  value (handle a e (POST_tickets_validate (Some i)) t) =
    Response 200 (validation a (lookup_id i t)).
Proof.
  intros Hi. unfold lookup_id, validation.
  destruct a; cbn; run_M; rewrite bool_decide_eq_false_2 by done; cbn;
    case_head; cbn; try done; by case_decide.
Qed.

(** C5, as the code has it.  For a non-empty id, validate answers 200 with
    a structured result in both applications and leaves the table as it was:
    no row with the id gives [valid = false], "Ticket no encontrado" and no
    ticket; a [Canjeado] row gives [valid = false] and "Ticket ya fue
    canjeado", with the row attached by [index.js] and, by
    [server/index.js], with [already_redeemed = true] and no ticket; any
    other row, a [Valido] one in particular, gives [valid = true],
    "Ticket válido" and the row attached. *)
Theorem validate_answers_with_a_structured_result a e i t :
  i ≠ "" →
  let o := handle a e (POST_tickets_validate (Some i)) t in
  code (value o) = 200 ∧ tickets o = t ∧
  match lookup_id i t with
  | None =>
      body (value o) = JValidation false None "Ticket no encontrado" None
  | Some r =>
      if decide (status r = Canjeado) then
        body (value o) =
          match a with
          | root => JValidation false None "Ticket ya fue canjeado" (Some r)
          | server =>
              JValidation false (Some true) "Ticket ya fue canjeado" None
          end
      else
        body (value o) = JValidation true None "Ticket válido" (Some r)
  end.
Proof.
  intros Hi. cbn zeta. rewrite validate_value, tickets_validate by done.
  split_and!; [done..|]. unfold validation.
  destruct (lookup_id i t) as [r|]; [|done].
  repeat case_decide; done.
Qed.

Lemma validate_answers_with_a_structured_result_witness :
  let o := handle root env0 (POST_tickets_validate (Some "u1")) [ana Canjeado] in
  code (value o) = 200 ∧ tickets o = [ana Canjeado] ∧
  body (value o) =
    JValidation false None "Ticket ya fue canjeado" (Some (ana Canjeado)).
Proof.
  pose proof (validate_answers_with_a_structured_result
                root env0 "u1" [ana Canjeado]) as H.
  apply H. discriminate.
Defined.

(** C5 fails as stated: for a redeemed ticket [server/index.js] attaches no
    ticket to its answer. *)
Lemma server_validate_of_redeemed_attaches_no_ticket :
  body (value (handle server env0 (POST_tickets_validate (Some "u1"))
                 [ana Canjeado])) =
    JValidation false (Some true) "Ticket ya fue canjeado" None.
Proof. reflexivity. Qed.

(** ** The status of a ticket over time *)

(** One request, seen from a row of the table before it. *)
Lemma step_row a e q t r r' :
  primary_key t → statuses_ok t → r ∈ t →
  r' ∈ tickets (handle a e q t) → id r' = id r →
  r' = r ∨
  (status r = Valido ∧ r' = set_status Canjeado r ∧ redeems (id r) q).
Proof.
  intros Hpk Hst Hr Hr' Hid.
  assert (status r = Valido ∨ status r = Canjeado) as Hsr.
  { eapply Forall_forall in Hst; [exact Hst|done]. }
  destruct q as [bn be en| |i|x|x|i].
  - destruct (post_tickets_cases a e bn be en t)
      as [(_ & _ & Ht)|(qr & _ & _ & _ & Hfresh & _ & Ht)];
      rewrite Ht in Hr'.
    + left. by apply (primary_key_unique t).
    + apply elem_of_app in Hr' as [Hr'|Hr'%list_elem_of_singleton].
      * left. by apply (primary_key_unique t).
      * destruct Hfresh. apply Exists_exists. exists r. split; [done|].
        unfold id_is. rewrite <-Hid, Hr'. done.
  - rewrite tickets_get_tickets in Hr'. left. by apply (primary_key_unique t).
  - rewrite tickets_get_tickets_id in Hr'. left.
    by apply (primary_key_unique t).
  - rewrite tickets_validate in Hr'. left. by apply (primary_key_unique t).
  - rewrite tickets_redeem in Hr'. destruct (falsy x) eqn:Hx.
    { left. by apply (primary_key_unique t). }
    apply list_elem_of_fmap in Hr' as (r0 & -> & Hr0).
    assert (r0 = r) as ->.
    { apply (primary_key_unique t); try done.
      rewrite <-Hid. case_decide; [by rewrite id_redeem_row|done]. }
    case_decide as Hi; [|by left].
    destruct x as [s|]; [|done]. cbn in Hi.
    destruct (status_redeem_row a r) as [Hs|[[Hs Heq]|[_ Heq]]].
    + left. destruct a; unfold redeem_row in *.
      * case_decide as Hv; [|done].
        rewrite status_set_status, Hv in Hs. by destruct Valido_neq_Canjeado.
      * rewrite status_set_status in Hs. rewrite Hs. apply set_status_same.
    + right. split_and!; [done..|]. unfold redeems. by rewrite Hi.
    + destruct Hsr as [Hv|Hc].
      * right. split_and!; [done..|]. unfold redeems. by rewrite Hi.
      * left. rewrite Heq, <-Hc. apply set_status_same.
  - rewrite tickets_delete in Hr'. apply list_elem_of_filter in Hr' as [_ Hr'].
    left. by apply (primary_key_unique t).
Qed.

(** A request that does not delete the id keeps a row with it. *)
Lemma step_keeps_row a e q t r :
  r ∈ t → ¬ deletes (id r) q →
  ∃ r1, r1 ∈ tickets (handle a e q t) ∧ id r1 = id r.
Proof.
  intros Hr Hq. destruct q as [bn be en| |i|x|x|i].
  - destruct (post_tickets_cases a e bn be en t)
      as [(_ & _ & Ht)|(qr & _ & _ & _ & _ & _ & Ht)]; rewrite Ht;
      exists r; split; try done. apply elem_of_app. by left.
  - rewrite tickets_get_tickets. by exists r.
  - rewrite tickets_get_tickets_id. by exists r.
  - rewrite tickets_validate. by exists r.
  - rewrite tickets_redeem. destruct (falsy x); [by exists r|].
    eexists. split; [by apply list_elem_of_fmap_2|].
    case_decide; [apply id_redeem_row|done].
  - rewrite tickets_delete. exists r. split; [|done].
    apply list_elem_of_filter. split; [|done].
    intros Heq. apply Hq. unfold deletes. by rewrite Heq.
Qed.

(** C3. In a table either application can reach, every status is [Valido]
    or [Canjeado].  One request leaves a row as it is, or turns a [Valido]
    row into the same row with status [Canjeado], and then the request is
    the redeem request for its id.  Over any run of requests that does not
    delete the id, the row is in the end either as it was or has made that
    one step; a [Canjeado] row therefore stays [Canjeado]. *)
Theorem status_changes_once_and_by_redeem_only a t r :
  reachable a t → r ∈ t →
  (status r = Valido ∨ status r = Canjeado) ∧
  (∀ e q r', r' ∈ tickets (handle a e q t) → id r' = id r →
     r' = r ∨
     (status r = Valido ∧ r' = set_status Canjeado r ∧ redeems (id r) q)) ∧
  (∀ qs r', Forall (λ eq, ¬ deletes (id r) eq.2) qs →
     r' ∈ run a qs t → id r' = id r →
     (r' = r ∨ (status r = Valido ∧ r' = set_status Canjeado r)) ∧
     (status r = Canjeado → status r' = Canjeado)).
Proof.
  intros Hreach Hr. split_and!.
  - pose proof (reachable_statuses_ok a t Hreach) as Hst.
    eapply Forall_forall in Hst; [exact Hst|done].
  - intros e q r'. apply step_row; try done.
    + by eapply reachable_primary_key.
    + by eapply reachable_statuses_ok.
  - intros qs r' Hqs Hr' Hid.
    assert (r' = r ∨ (status r = Valido ∧ r' = set_status Canjeado r)) as Hone.
    { revert t r Hreach Hr Hqs Hr' Hid.
      induction qs as [|[e q] qs IH]; intros t r Hreach Hr Hqs Hr' Hid; cbn in Hr'.
      { left. apply (primary_key_unique t); try done.
        by eapply reachable_primary_key. }
      apply Forall_cons in Hqs as [Hq Hqs]. cbn in Hq.
      destruct (step_keeps_row a e q t r Hr Hq) as (r1 & Hr1 & Hid1).
      assert (r1 = r ∨
        (status r = Valido ∧ r1 = set_status Canjeado r ∧ redeems (id r) q))
        as Hstep.
      { apply (step_row a e q t); try done.
        - by eapply reachable_primary_key.
        - by eapply reachable_statuses_ok. }
      destruct (IH (tickets (handle a e q t)) r1) as [H1|[Hv H1]]; try done.
      - by apply reachable_step.
      - by rewrite Hid1.
      - congruence.
      - destruct Hstep as [->|(Hv & -> & _)]; [by left|by right].
      - destruct Hstep as [->|(_ & -> & _)]; [by right|].
        cbn in Hv. by destruct Valido_neq_Canjeado. }
    split; [done|]. intros Hc.
    destruct Hone as [->|[Hv _]]; [done|].
    rewrite Hc in Hv. by destruct Valido_neq_Canjeado.
Qed.

Lemma reachable_ana : reachable root [ana Valido].
Proof.
  change [ana Valido] with
    (tickets (handle root env0 (POST_tickets (Some "Ana") None (Some "Concert")) [])).
  apply reachable_step, reachable_init.
Defined.

Lemma status_changes_once_and_by_redeem_only_witness :
  set_status Canjeado (ana Valido) = ana Valido ∨
  (status (ana Valido) = Valido ∧
   set_status Canjeado (ana Valido) = set_status Canjeado (ana Valido) ∧
   redeems (id (ana Valido)) (POST_tickets_redeem (Some "u1"))).
Proof.
  pose proof (status_changes_once_and_by_redeem_only root [ana Valido]
                (ana Valido) reachable_ana (list_elem_of_here _ _))
    as (_ & Hstep & _).
  apply (Hstep env0 (POST_tickets_redeem (Some "u1"))); [|reflexivity].
  apply list_elem_of_here.
Defined.

(** ** The rows with a given id over a run *)

Lemma filter_fmap_preserving {A} (P : A → Prop) `{∀ x, Decision (P x)}
    (f : A → A) (l : list A) :
  (∀ x, P (f x) ↔ P x) → filter P (f <$> l) = f <$> filter P l.
Proof.
  intros Hf. induction l as [|x l IH]; [done|].
  rewrite fmap_cons, !filter_cons.
  destruct (decide (P (f x))) as [Hy|Hn], (decide (P x)) as [Hy'|Hn'].
  - by rewrite fmap_cons, IH.
  - destruct Hn'. by apply Hf.
  - destruct Hn. by apply Hf.
  - done.
Qed.

Lemma redeem_row_redeemed a r : status r = Canjeado → redeem_row a r = r.
Proof.
  intros Hc. destruct a; unfold redeem_row.
  - case_decide as Hv; [|done]. rewrite Hc in Hv. by destruct Valido_neq_Canjeado.
  - rewrite <-Hc. apply set_status_same.
Qed.

Lemma redeem_row_valid a r :
  status r = Valido → redeem_row a r = set_status Canjeado r.
Proof. intros Hv. destruct a; unfold redeem_row; [by case_decide|done]. Qed.

(** One request, seen from the rows with id [i], when there are some and
    the request does not delete them: a redeem request for [i] redeems
    them, every other request leaves them as they are. *)
Lemma step_rows_with_id a e q t i :
  filter (id_is i) t ≠ [] → ¬ deletes i q →
  filter (id_is i) (tickets (handle a e q t)) =
    if decide (redeems i q ∧ i ≠ "")
    then redeem_row a <$> filter (id_is i) t
    else filter (id_is i) t.
Proof.
  intros Hrows Hq. destruct q as [bn be en| |j|x|x|j].
  - rewrite decide_False by (by intros [? _]).
    destruct (post_tickets_cases a e bn be en t)
      as [(_ & _ & ->)|(qr & _ & _ & _ & Hfresh & _ & ->)]; [done|].
    rewrite filter_app, filter_cons, filter_nil.
    case_decide as Hi; [|by rewrite app_nil_r].
    destruct Hrows. apply filter_nil_iff. unfold id_is in Hi. cbn in Hi.
    by rewrite <-Hi.
  - rewrite decide_False by (by intros [? _]). by rewrite tickets_get_tickets.
  - rewrite decide_False by (by intros [? _]). by rewrite tickets_get_tickets_id.
  - rewrite decide_False by (by intros [? _]). by rewrite tickets_validate.
  - rewrite tickets_redeem. destruct (falsy x) eqn:Hx.
    { rewrite decide_False; [done|]. intros [[= ->] Hi].
      by rewrite falsy_Some_false in Hx. }
    rewrite filter_fmap_preserving.
    2:{ intros r. unfold id_is. case_decide; [by rewrite id_redeem_row|done]. }
    destruct x as [s|]; [|done]. cbn in Hx. apply bool_decide_eq_false in Hx.
    cbn [str]. case_decide as Hd.
    + destruct Hd as [[= ->] _]. apply list_fmap_ext.
      intros _ r Hr%list_elem_of_lookup_2%list_elem_of_filter.
      destruct Hr as [Hr _]. by rewrite decide_True.
    + rewrite <-(list_fmap_id (filter (id_is i) t)) at 2. apply list_fmap_ext.
      intros _ r Hr%list_elem_of_lookup_2%list_elem_of_filter.
      destruct Hr as [Hr _]. unfold id_is in Hr.
      rewrite decide_False; [done|]. intros Heq. apply Hd.
      split; [|congruence]. unfold redeems. congruence.
  - rewrite decide_False by (by intros [? _]). rewrite tickets_delete.
    rewrite list_filter_filter. apply list_filter_iff.
    intros r. unfold id_is. split; [tauto|]. intros Hr. split; [done|].
    intros Hj. apply Hq. unfold deletes. congruence.
Qed.

(** A run that neither redeems nor deletes [i] leaves its rows alone. *)
Lemma run_rows_untouched a qs t i :
  filter (id_is i) t ≠ [] →
  Forall (λ eq, ¬ redeems i eq.2 ∧ ¬ deletes i eq.2) qs →
  filter (id_is i) (run a qs t) = filter (id_is i) t.
Proof.
  revert t. induction qs as [|[e q] qs IH]; intros t Hrows Hqs; [done|].
  apply Forall_cons in Hqs as [[Hr Hd] Hqs]. cbn in Hr, Hd. cbn [run].
  assert (filter (id_is i) (tickets (handle a e q t)) = filter (id_is i) t)
    as Hstep.
  { rewrite step_rows_with_id by done. rewrite decide_False; [done|].
    by intros [? _]. }
  rewrite IH; [done| |done]. by rewrite Hstep.
Qed.

(** A run that does not delete [i] leaves its redeemed rows alone. *)
Lemma run_rows_redeemed a qs t i :
  filter (id_is i) t ≠ [] →
  Forall (λ r, status r = Canjeado) (filter (id_is i) t) →
  Forall (λ eq, ¬ deletes i eq.2) qs →
  filter (id_is i) (run a qs t) = filter (id_is i) t.
Proof.
  revert t. induction qs as [|[e q] qs IH]; intros t Hrows Hst Hqs; [done|].
  apply Forall_cons in Hqs as [Hd Hqs]. cbn in Hd. cbn [run].
  assert (filter (id_is i) (tickets (handle a e q t)) = filter (id_is i) t)
    as Hstep.
  { rewrite step_rows_with_id by done. case_decide; [|done].
    rewrite <-(list_fmap_id (filter (id_is i) t)) at 2.
    apply list_fmap_ext. intros _ r Hr%list_elem_of_lookup_2.
    apply redeem_row_redeemed. eapply Forall_forall in Hst; [exact Hst|done]. }
  rewrite IH; [done|by rewrite Hstep|by rewrite Hstep|done].
Qed.

(** ** Create, validate, redeem, validate *)

(** C7. Take a create request that either application accepts (answer 200)
    and the id [i] it drew, a non-empty string.  After any run of requests
    that neither redeems nor deletes [i], validate answers [valid = true],
    "Ticket válido", with the ticket of id [i] attached.  A redeem request
    for [i] then succeeds (answer 200), and after any further run that does
    not delete [i], validate answers [valid = false] with "Ticket ya fue
    canjeado". *)
Theorem validate_round_trip a e bn be en t qs1 e1 e2 qs2 e3 :
  let o := handle a e (POST_tickets bn be en) t in
  let i := uuidv4 e in
  let t1 := run a qs1 (tickets o) in
  let o2 := handle a e2 (POST_tickets_redeem (Some i)) t1 in
  let t2 := run a qs2 (tickets o2) in
  code (value o) = 200 → i ≠ "" →
  Forall (λ eq, ¬ redeems i eq.2 ∧ ¬ deletes i eq.2) qs1 →
  Forall (λ eq, ¬ deletes i eq.2) qs2 →
  (∃ r, id r = i ∧
        value (handle a e1 (POST_tickets_validate (Some i)) t1) =
          Response 200 (JValidation true None "Ticket válido" (Some r))) ∧
  code (value o2) = 200 ∧
  (∃ ar tk,
     value (handle a e3 (POST_tickets_validate (Some i)) t2) =
       Response 200 (JValidation false ar "Ticket ya fue canjeado" tk)).
Proof.
  intros o i t1 o2 t2 Hok Hi Hqs1 Hqs2.
  destruct (post_tickets_cases a e bn be en t)
    as [(Hno & _)|(qr & _ & _ & _ & Hfresh & _ & Ht)]; [done|].
  fold o in Ht. fold i in Hfresh.
  set (row0 := created_row e bn be en qr) in *.
  assert (filter (id_is i) (tickets o) = [row0]) as F0.
  { rewrite Ht, filter_app, (proj2 (filter_nil_iff _ _) Hfresh).
    by rewrite filter_cons_True. }
  assert (filter (id_is i) t1 = [row0]) as F1.
  { unfold t1. rewrite run_rows_untouched; [done| |done]. by rewrite F0. }
  assert (row0 ∈ t1) as Hin.
  { eapply (proj1 (list_elem_of_filter (id_is i) _ _)).
    rewrite F1. apply list_elem_of_here. }
  assert (filter (id_is i) (tickets o2) = [set_status Canjeado row0]) as F2.
  { unfold o2. rewrite step_rows_with_id; [|by rewrite F1|done].
    rewrite decide_True by (split; [reflexivity|done]). rewrite F1.
    change (redeem_row a <$> [row0]) with [redeem_row a row0].
    by rewrite redeem_row_valid. }
  assert (filter (id_is i) t2 = [set_status Canjeado row0]) as F3.
  { unfold t2. rewrite run_rows_redeemed; [done|by rewrite F2| |done].
    rewrite F2. by apply Forall_singleton. }
  split_and!.
  - exists row0. split; [done|].
    rewrite validate_value by done. unfold lookup_id. by rewrite F1.
  - unfold o2. destruct a.
    + rewrite root_redeem_value by done. rewrite decide_True; [done|].
      apply Exists_exists. by exists row0.
    + rewrite server_redeem_value by done. rewrite decide_True; [done|].
      apply Exists_exists. by exists row0.
  - rewrite validate_value by done. unfold lookup_id. rewrite F3. cbn.
    destruct a; eauto.
Qed.

Lemma validate_round_trip_witness :
  let t1 := tickets (handle root env0 (POST_tickets (Some "Ana") None (Some "Concert")) []) in
  let o2 := handle root env0 (POST_tickets_redeem (Some "u1")) t1 in
  (∃ r, id r = "u1" ∧
        value (handle root env0 (POST_tickets_validate (Some "u1")) t1) =
          Response 200 (JValidation true None "Ticket válido" (Some r))) ∧
  code (value o2) = 200 ∧
  (∃ ar tk,
     value (handle root env0 (POST_tickets_validate (Some "u1")) (tickets o2)) =
       Response 200 (JValidation false ar "Ticket ya fue canjeado" tk)).
Proof.
  apply (validate_round_trip root env0 (Some "Ana") None (Some "Concert") []
           [] env0 env0 [] env0).
  - reflexivity.
  - discriminate.
  - apply Forall_nil_2.
  - apply Forall_nil_2.
Defined.

(** ** The creation time in the answer and in the store *)

Lemma get_tickets_id_value a e i t :
  value (handle a e (GET_tickets_id i) t) =
    match lookup_id i t with
    | Some row => Response 200 (JTicket row)
    | None => Response 404 (JError "Ticket no encontrado")
    end.
Proof. unfold lookup_id. destruct a; cbn; run_M; by case_head. Qed.

Lemma get_tickets_value a e t :
  value (handle a e GET_tickets t) =
    Response 200 (JTickets (order_by_created_at_desc t)).
Proof. by destruct a. Qed.

(** C9. When a create request is accepted, the [created_at] of the answer
    is what [moment().format(..)] gave the handler, while the row stored
    under the new id has the [CURRENT_TIMESTAMP] of the insert; that row is
    what a later get-by-id answers with and what list contains.  And there
    are accepted create requests after which get-by-id answers with a
    [created_at] other than the one the create request answered with. *)
Theorem created_at_of_the_answer_is_not_the_stored_one a :
  (∀ e bn be en t e',
     let o := handle a e (POST_tickets bn be en) t in
     code (value o) = 200 →
     ∃ resp row,
       body (value o) = JTicket resp ∧ id resp = uuidv4 e ∧
       created_at resp = moment_format e (moment_fmt a) ∧
       lookup_id (uuidv4 e) (tickets o) = Some row ∧
       created_at row = CURRENT_TIMESTAMP e ∧
       value (handle a e' (GET_tickets_id (uuidv4 e)) (tickets o)) =
         Response 200 (JTicket row) ∧
       ∃ rows, value (handle a e' GET_tickets (tickets o)) =
                 Response 200 (JTickets rows) ∧ row ∈ rows) ∧
  (∃ e bn be en t resp row,
     let o := handle a e (POST_tickets bn be en) t in
     value o = Response 200 (JTicket resp) ∧
     value (handle a e (GET_tickets_id (id resp)) (tickets o)) =
       Response 200 (JTicket row) ∧
     created_at resp ≠ created_at row).
Proof.
  split.
  - intros e bn be en t e' o Hok.
    destruct (post_tickets_cases a e bn be en t)
      as [(Hno & _)|(qr & _ & _ & _ & Hfresh & Hv & Ht)]; [done|].
    fold o in Hv, Ht.
    assert (lookup_id (uuidv4 e) (tickets o) = Some (created_row e bn be en qr))
      as Hrow.
    { unfold lookup_id.
      rewrite Ht, filter_app, (proj2 (filter_nil_iff _ _) Hfresh).
      by rewrite filter_cons_True. }
    exists (created_response a e bn be en qr), (created_row e bn be en qr).
    split_and!; try done.
    + by rewrite Hv.
    + by rewrite get_tickets_id_value, Hrow.
    + eexists. split; [apply get_tickets_value|].
      rewrite order_by_created_at_desc_Permutation, Ht. apply elem_of_app. right.
      apply list_elem_of_here.
  - exists env0, (Some "Ana"), None, (Some "Concert"), [].
    destruct a; do 2 eexists; cbn zeta; split_and!; try reflexivity; discriminate.
Qed.

Lemma created_at_of_the_answer_is_not_the_stored_one_witness :
  let o := handle server env0 (POST_tickets (Some "Ana") None (Some "Concert")) [] in
  ∃ resp row,
    body (value o) = JTicket resp ∧ id resp = "u1" ∧
    created_at resp = "2024-05-01 07:00:00" ∧
    lookup_id "u1" (tickets o) = Some row ∧
    created_at row = "2024-05-01 10:00:00" ∧
    value (handle server env0 (GET_tickets_id "u1") (tickets o)) =
      Response 200 (JTicket row) ∧
    ∃ rows, value (handle server env0 GET_tickets (tickets o)) =
              Response 200 (JTickets rows) ∧ row ∈ rows.
Proof.
  apply (proj1 (created_at_of_the_answer_is_not_the_stored_one server)
           env0 (Some "Ana") None (Some "Concert") [] env0).
  reflexivity.
Defined.

(** ** The two applications side by side *)





(** * Further properties of the handlers *)

(** ** Get by id *)

Lemma primary_key_rows_with_id t r :
  primary_key t → r ∈ t → filter (id_is (id r)) t = [r].
Proof.
  unfold primary_key. induction t as [|x t IH]; [by intros _ ?%elem_of_nil|].
  rewrite fmap_cons, NoDup_cons, elem_of_cons. intros [Hx Ht] [->|Hr].
  - rewrite filter_cons_True by done. f_equal. apply filter_nil_iff.
    intros (r & Hr & Hid)%Exists_exists. apply Hx. unfold id_is in Hid.
    rewrite <-Hid. by apply list_elem_of_fmap_2.
  - rewrite filter_cons_False; [by apply IH|].
    unfold id_is. intros Hid. apply Hx. rewrite Hid.
    by apply list_elem_of_fmap_2.
Qed.

Lemma lookup_id_Some t i r :
  primary_key t → lookup_id i t = Some r ↔ r ∈ t ∧ id r = i.
Proof.
  intros Hpk. unfold lookup_id. split.
  - intros Hh. apply head_Some_elem_of, list_elem_of_filter in Hh. tauto.
  - intros [Hr <-]. by rewrite primary_key_rows_with_id.
Qed.

Lemma lookup_id_None t i : lookup_id i t = None ↔ ∀ r, r ∈ t → id r ≠ i.
Proof.
  unfold lookup_id. rewrite head_None, filter_nil_iff, Exists_exists.
  unfold id_is. split.
  - intros Hn r Hr Hid. apply Hn. by exists r.
  - intros Hn (r & Hr & Hid). by apply (Hn r).
Qed.

(** X1. On a table either application can reach, get-by-id answers 200
    with a row exactly when that row is stored under the id, and 404
    "Ticket no encontrado" exactly when no row has the id; it leaves the
    table as it was. *)
Theorem get_by_id_finds_exactly_the_stored_row a t e i :
  reachable a t →
  let o := handle a e (GET_tickets_id i) t in
  tickets o = t ∧
  (∀ r, value o = Response 200 (JTicket r) ↔ r ∈ t ∧ id r = i) ∧
  (value o = Response 404 (JError "Ticket no encontrado") ↔
   ∀ r, r ∈ t → id r ≠ i).
Proof.
  intros Hreach. cbn zeta.
  pose proof (reachable_primary_key a t Hreach) as Hpk.
  rewrite tickets_get_tickets_id, get_tickets_id_value. split_and!; [done| |].
  - intros r. rewrite <-lookup_id_Some by done.
    destruct (lookup_id i t) as [r0|]; split; intros [=]; by subst.
  - rewrite <-lookup_id_None.
    destruct (lookup_id i t) as [r0|]; split; intros [=]; done.
Qed.

Lemma get_by_id_finds_exactly_the_stored_row_witness :
  let o := handle root env0 (GET_tickets_id "u1") [ana Valido] in
  tickets o = [ana Valido] ∧
  (∀ r, value o = Response 200 (JTicket r) ↔ r ∈ [ana Valido] ∧ id r = "u1") ∧
  (value o = Response 404 (JError "Ticket no encontrado") ↔
   ∀ r, r ∈ [ana Valido] → id r ≠ "u1").
Proof.
  exact (get_by_id_finds_exactly_the_stored_row root [ana Valido] env0 "u1"
           reachable_ana).
Defined.

(** ** Create *)

(** X2. A create request is accepted (answer 200) exactly when both
    required fields are non-empty, the encoder yields a payload for the
    drawn id, no row has that id yet and, under [server/index.js] only, no
    row has that payload yet. *)
Theorem create_is_accepted_iff a e bn be en t :
  code (value (handle a e (POST_tickets bn be en) t)) = 200 ↔
  falsy bn = false ∧ falsy en = false ∧
  ∃ qr, toDataURL e (uuidv4 e) = Some qr ∧
        ¬ Exists (id_is (uuidv4 e)) t ∧
        (a = server → ¬ Exists (qr_code_is qr) t).
Proof.
  destruct a; cbn; run_M.
  all: destruct (falsy bn); cbn; [split; [done|by intros [? _]]|].
  all: destruct (falsy en); cbn; [split; [done|by intros (_ & ? & _)]|].
  all: destruct (toDataURL e (uuidv4 e)) as [qr|]; cbn;
    [|split; [done|by intros (_ & _ & ? & ? & _)]].
  all: unfold insert_ticket; cbn.
  all: destruct (decide (Exists (id_is (uuidv4 e)) t)); cbn;
    [split; [done|by intros (_ & _ & ? & _ & ? & _)]|].
  - split; [|done]. intros _. split_and!; try done. by exists qr.
  - case_bool_decide as Hq; cbn.
    + split; [done|]. intros (_ & _ & qr' & [= <-] & _ & Hn). by destruct Hn.
    + split; [|done]. intros _. split_and!; try done. by exists qr.
Qed.

(** X3. An accepted create request appends exactly one row after the rows
    already there: it has the drawn id, which no earlier row has, the
    non-empty buyer and event names and the e-mail of the request, status
    [Valido], and as [qr_code] the encoding of its own id.  The handler
    has drawn the id, encoded it, run the insert and read the clock, in
    this order, and answers with the stored fields but its own
    [created_at]. *)
Theorem accepted_create_stores_one_row a e bn be en t :
  let o := handle a e (POST_tickets bn be en) t in
  code (value o) = 200 →
  ∃ row,
    tickets o = t ++ [row] ∧
    id row = uuidv4 e ∧ (∀ r, r ∈ t → id r ≠ id row) ∧
    buyer_name row = str bn ∧ buyer_name row ≠ "" ∧
    buyer_email row = be ∧
    event_name row = str en ∧ event_name row ≠ "" ∧
    status row = Valido ∧
    toDataURL e (id row) = Some (qr_code row) ∧
    value o =
      Response 200 (JTicket (created_response a e bn be en (qr_code row))) ∧
    effects o =
      [CallUuidv4; CallToDataURL (id row);
       DbRun (INSERT_INTO_tickets (id row) (buyer_name row) (buyer_email row)
                                  (event_name row) (qr_code row));
       CallMomentFormat (moment_fmt a)].
Proof.
  intros o Hok.
  destruct (post_tickets_cases a e bn be en t)
    as [(Hno & _)|(qr & Hbn & Hen & Hqr & Hid & _ & _)]; [done|].
  exists (created_row e bn be en qr).
  assert (str bn ≠ "") as Hbn'.
  { destruct bn as [s|]; [|done]. cbn in Hbn.
    by apply bool_decide_eq_false in Hbn. }
  assert (str en ≠ "") as Hen'.
  { destruct en as [s|]; [|done]. cbn in Hen.
    by apply bool_decide_eq_false in Hen. }
  assert (∀ r, r ∈ t → id r ≠ uuidv4 e) as Hfresh.
  { intros r Hr Heq. apply Hid, Exists_exists. by exists r. }
  revert Hok. unfold o. clear o.
  destruct a; cbn; run_M; rewrite Hbn, Hen, Hqr; cbn;
    unfold insert_ticket; cbn; rewrite decide_False by done; cbn.
  - intros _. split_and!; done.
  - case_bool_decide; cbn; [done|]. intros _. split_and!; done.
Qed.

Lemma accepted_create_stores_one_row_witness :
  let o := handle server env0
             (POST_tickets (Some "Ana") None (Some "Concert")) [] in
  ∃ row,
    tickets o = [] ++ [row] ∧
    id row = "u1" ∧ (∀ r, r ∈ [] → id r ≠ id row) ∧
    buyer_name row = "Ana" ∧ buyer_name row ≠ "" ∧
    buyer_email row = None ∧
    event_name row = "Concert" ∧ event_name row ≠ "" ∧
    status row = Valido ∧
    toDataURL env0 (id row) = Some (qr_code row) ∧
    value o =
      Response 200 (JTicket (created_response server env0 (Some "Ana") None
                               (Some "Concert") (qr_code row))) ∧
    effects o =
      [CallUuidv4; CallToDataURL (id row);
       DbRun (INSERT_INTO_tickets (id row) (buyer_name row) (buyer_email row)
                                  (event_name row) (qr_code row));
       CallMomentFormat (moment_fmt server)].
Proof.
  apply (accepted_create_stores_one_row server env0
           (Some "Ana") None (Some "Concert") []).
  reflexivity.
Defined.

(** X4. A create request that is not accepted answers 400 or 500 with an
    error body and leaves the table exactly as it was; and when the encoder
    rejects the id, the handler answers 500 without having sent any
    statement to the store. *)
Theorem rejected_create_writes_nothing a e bn be en t :
  let o := handle a e (POST_tickets bn be en) t in
  code (value o) ≠ 200 →
  tickets o = t ∧
  (code (value o) = 400 ∨ code (value o) = 500) ∧
  (∃ m, body (value o) = JError m) ∧
  (falsy bn || falsy en = false → toDataURL e (uuidv4 e) = None →
   value o = Response 500 (JError "Error interno del servidor") ∧
   effects o = [CallUuidv4; CallToDataURL (uuidv4 e)]).
Proof.
  cbn zeta. destruct a; cbn; run_M.
  all: destruct (falsy bn); cbn; [intros _; split_and!; eauto; done|].
  all: destruct (falsy en); cbn; [intros _; split_and!; eauto; done|].
  all: destruct (toDataURL e (uuidv4 e)) as [qr|]; cbn;
    [|intros _; split_and!; eauto].
  all: unfold insert_ticket; cbn.
  all: destruct (decide (Exists (id_is (uuidv4 e)) t)); cbn;
    [intros _; split_and!; eauto; done|].
  - done.
  - case_bool_decide; cbn; [intros _; split_and!; eauto; done|done].
Qed.

Lemma rejected_create_writes_nothing_witness :
  let o := handle root env_no_payload
             (POST_tickets (Some "Bo") None (Some "Opera")) [ana Valido] in
  tickets o = [ana Valido] ∧
  (code (value o) = 400 ∨ code (value o) = 500) ∧
  (∃ m, body (value o) = JError m) ∧
  (falsy (Some "Bo") || falsy (Some "Opera") = false →
   toDataURL env_no_payload (uuidv4 env_no_payload) = None →
   value o = Response 500 (JError "Error interno del servidor") ∧
   effects o = [CallUuidv4; CallToDataURL (uuidv4 env_no_payload)]).
Proof.
  apply (rejected_create_writes_nothing root env_no_payload
           (Some "Bo") None (Some "Opera") [ana Valido]).
  discriminate.
Defined.

(** X5. The one place where the [UNIQUE] constraint on [qr_code] shows:
    a create request that would otherwise be accepted, but whose payload
    some row already holds, is answered 500 by [server/index.js] after the
    insert failed, the table unchanged, while [index.js] accepts it and
    stores the row. *)
Theorem stored_payload_is_refused_by_server_only e bn be en t qr :
  falsy bn = false → falsy en = false →
  toDataURL e (uuidv4 e) = Some qr →
  ¬ Exists (id_is (uuidv4 e)) t →
  Exists (qr_code_is qr) t →
  handle server e (POST_tickets bn be en) t =
    Outcome (Response 500 (JError "Error al crear el ticket")) t
      [CallUuidv4; CallToDataURL (uuidv4 e);
       DbRun (INSERT_INTO_tickets (uuidv4 e) (str bn) be (str en) qr)] ∧
  code (value (handle root e (POST_tickets bn be en) t)) = 200 ∧
  tickets (handle root e (POST_tickets bn be en) t) =
    t ++ [created_row e bn be en qr].
Proof.
  intros Hbn Hen Hqr Hid Hdup. cbn. run_M. rewrite Hbn, Hen, Hqr. cbn.
  unfold insert_ticket. cbn. rewrite !decide_False by done.
  rewrite bool_decide_eq_true_2 by done. done.
Qed.

Lemma stored_payload_is_refused_by_server_only_witness :
  let q := POST_tickets (Some "Bo") None (Some "Opera") in
  handle server env_same_payload q [ana Valido] =
    Outcome (Response 500 (JError "Error al crear el ticket")) [ana Valido]
      [CallUuidv4; CallToDataURL "u2";
       DbRun (INSERT_INTO_tickets "u2" "Bo" None "Opera"
                "data:image/png;base64,u1")] ∧
  code (value (handle root env_same_payload q [ana Valido])) = 200 ∧
  tickets (handle root env_same_payload q [ana Valido]) =
    [ana Valido] ++ [created_row env_same_payload (Some "Bo") None
                       (Some "Opera") "data:image/png;base64,u1"].
Proof.
  apply (stored_payload_is_refused_by_server_only env_same_payload
           (Some "Bo") None (Some "Opera") [ana Valido]
           "data:image/png;base64,u1").
  - reflexivity.
  - reflexivity.
  - reflexivity.
  - rewrite Exists_cons, Exists_nil. by intros [|[]].
  - apply Exists_cons. by left.
Defined.

(** ** Invariants of reachable tables *)

Lemma names_redeem_row a r :
  buyer_name (redeem_row a r) = buyer_name r ∧
  event_name (redeem_row a r) = event_name r.
Proof. destruct a; cbn; [by case_decide|done]. Qed.

Lemma server_handle_qr_codes_unique e q t :
  qr_codes_unique t → qr_codes_unique (tickets (handle server e q t)).
Proof.
  unfold qr_codes_unique. intros Ht. destruct q as [bn be en| |i|x|x|i].
  - cbn. run_M.
    destruct (falsy bn); cbn; [done|]. destruct (falsy en); cbn; [done|].
    destruct (toDataURL e (uuidv4 e)) as [qr|]; cbn; [|done].
    unfold insert_ticket; cbn.
    destruct (decide (Exists (id_is (uuidv4 e)) t)); cbn; [done|].
    case_bool_decide as Hq; cbn; [done|].
    rewrite fmap_app. apply NoDup_app.
    split_and!; [done| |apply NoDup_singleton].
    intros c Hc ->%list_elem_of_singleton. apply Hq, Exists_exists.
    apply list_elem_of_fmap in Hc as (r & Hr & ?). by exists r.
  - by rewrite tickets_get_tickets.
  - by rewrite tickets_get_tickets_id.
  - by rewrite tickets_validate.
  - rewrite tickets_redeem. destruct (falsy x); [done|].
    rewrite <-list_fmap_compose.
    erewrite list_fmap_ext; [exact Ht|].
    intros _ r _. cbn. by case_decide.
  - rewrite tickets_delete.
    apply (sublist_NoDup _ (qr_code <$> t)); [exact Ht|].
    apply fmap_sublist, sublist_filter.
Qed.

(** X6. In every table [server/index.js] can reach, no two rows share a
    [qr_code]. *)
Theorem server_tables_have_unique_qr_codes t :
  reachable server t → qr_codes_unique t.
Proof.
  induction 1; [apply NoDup_nil_2|by apply server_handle_qr_codes_unique].
Qed.

Lemma reachable_ana_bo : reachable server [ana Valido; bo].
Proof.
  apply (reachable_step server _ env1
           (POST_tickets (Some "Bo") None (Some "Opera"))
           (reachable_step server _ env0
              (POST_tickets (Some "Ana") None (Some "Concert"))
              (reachable_init server))).
Defined.

Lemma server_tables_have_unique_qr_codes_witness :
  qr_codes_unique [ana Valido; bo].
Proof. exact (server_tables_have_unique_qr_codes _ reachable_ana_bo). Defined.

Lemma handle_names_ok a e q t :
  names_ok t → names_ok (tickets (handle a e q t)).
Proof.
  unfold names_ok. intros Ht. destruct q as [bn be en| |i|x|x|i].
  - destruct (post_tickets_cases a e bn be en t)
      as [(_ & _ & ->)|(qr & Hbn & Hen & _ & _ & _ & ->)]; [done|].
    apply Forall_app_2; [done|]. apply Forall_singleton. cbn. split.
    + destruct bn as [s|]; [|done]. cbn in Hbn.
      by apply bool_decide_eq_false in Hbn.
    + destruct en as [s|]; [|done]. cbn in Hen.
      by apply bool_decide_eq_false in Hen.
  - by rewrite tickets_get_tickets.
  - by rewrite tickets_get_tickets_id.
  - by rewrite tickets_validate.
  - rewrite tickets_redeem. destruct (falsy x); [done|].
    apply Forall_fmap. eapply Forall_impl; [exact Ht|].
    intros r Hr. cbn. case_decide; [|done].
    destruct (names_redeem_row a r) as [-> ->]. done.
  - rewrite tickets_delete. apply Forall_forall.
    intros r Hr%list_elem_of_filter.
    eapply Forall_forall in Ht; [exact Ht|apply Hr].
Qed.

(** X7. In every table either application can reach, no two rows share an
    id, and every row has a non-empty [buyer_name] and a non-empty
    [event_name]. *)
Theorem reachable_tables_are_well_formed a t :
  reachable a t →
  NoDup (id <$> t) ∧
  Forall (λ r, buyer_name r ≠ "" ∧ event_name r ≠ "") t.
Proof.
  intros Hreach. split; [by apply (reachable_primary_key a)|].
  induction Hreach; [apply Forall_nil_2|by apply handle_names_ok].
Qed.

Lemma reachable_tables_are_well_formed_witness :
  NoDup (id <$> [ana Valido]) ∧
  Forall (λ r, buyer_name r ≠ "" ∧ event_name r ≠ "") [ana Valido].
Proof. exact (reachable_tables_are_well_formed root _ reachable_ana). Defined.

(** ** Requests that only read *)

(** X8. List, get-by-id and validate never write: in both applications
    they leave the table as it was, and the only call they make is at most
    one [db.get] or [db.all]. *)
Theorem reads_never_write a e q t :
  reads_only q →
  let o := handle a e q t in
  tickets o = t ∧ Forall is_db_read (effects o) ∧ length (effects o) ≤ 1.
Proof.
  intros Hq. cbn zeta. destruct q as [bn be en| |i|x|x|i]; try done.
  - destruct a; cbn; split_and!; try done; by apply Forall_singleton.
  - rewrite tickets_get_tickets_id. split; [done|].
    destruct a; cbn; run_M; case_head; cbn;
      split; try done; by apply Forall_singleton.
  - rewrite tickets_validate. split; [done|].
    destruct a; cbn; run_M; destruct (falsy x); cbn;
      try (split; [apply Forall_nil_2|lia]);
      case_head; cbn; try case_decide; cbn;
      split; try done; by apply Forall_singleton.
Qed.

Lemma reads_never_write_witness :
  let o := handle server env0 (POST_tickets_validate (Some "u1")) [ana Valido] in
  tickets o = [ana Valido] ∧ Forall is_db_read (effects o) ∧
  length (effects o) ≤ 1.
Proof.
  apply (reads_never_write server env0 (POST_tickets_validate (Some "u1"))).
  exact I.
Defined.

(** ** Redeem, seen row by row and over runs *)

(** X9. A redeem request keeps the number and the order of the rows; row
    by row, a row is left as it was, or it has the id of the request and
    differs from what it was in its status alone, which is [Canjeado]. *)
Theorem redeem_touches_only_the_status a e x t :
  Forall2 (λ r r', r' = r ∨ (id r = str x ∧ r' = set_status Canjeado r))
          t (tickets (handle a e (POST_tickets_redeem x) t)).
Proof.
  rewrite tickets_redeem. destruct (falsy x).
  - apply Forall_Forall2_diag, Forall_forall. intros r _. by left.
  - apply Forall2_fmap_r, Forall_Forall2_diag, Forall_forall.
    intros r _. cbn. case_decide as Hid; [|by left].
    destruct a; cbn; [case_decide|]; auto.
Qed.

Lemma run_keeps_rows a qs t i :
  filter (id_is i) t ≠ [] →
  Forall (λ eq, ¬ deletes i eq.2) qs →
  filter (id_is i) (run a qs t) ≠ [].
Proof.
  revert t. induction qs as [|[e q] qs IH]; intros t Hrows Hqs; [done|].
  apply Forall_cons in Hqs as [Hd Hqs]. cbn in Hd. cbn [run].
  apply IH; [|done]. rewrite step_rows_with_id by done.
  case_decide; [|done]. intros Hnil%fmap_nil_inv. done.
Qed.

(** X10. Under [index.js] a ticket is redeemed at most once: on a table it
    can reach, once a redeem request for an id has been answered 200, a
    later redeem request for that id is answered 400 "Ticket no encontrado
    o ya fue canjeado", whatever requests come in between, as long as none
    deletes the id. *)
Theorem root_never_redeems_twice t e1 i qs e2 :
  let o1 := handle root e1 (POST_tickets_redeem (Some i)) t in
  reachable root t →
  code (value o1) = 200 →
  Forall (λ eq, ¬ deletes i eq.2) qs →
  value (handle root e2 (POST_tickets_redeem (Some i))
           (run root qs (tickets o1))) =
    Response 400 (JError "Ticket no encontrado o ya fue canjeado").
Proof.
  intros o1 Hreach Hok Hqs.
  assert (i ≠ "") as Hi.
  { intros ->. by vm_compute in Hok. }
  unfold o1 in Hok. rewrite root_redeem_value in Hok by done.
  case_decide as Hex; [clear Hok|done].
  apply Exists_exists in Hex as (r0 & Hr0 & Hid0 & Hv0).
  assert (filter (id_is i) t ≠ []) as Hrows.
  { rewrite filter_nil_iff. intros Hn. apply Hn, Exists_exists. by exists r0. }
  assert (filter (id_is i) (tickets o1) = redeem_row root <$> filter (id_is i) t)
    as F1.
  { unfold o1. rewrite step_rows_with_id by done.
    by rewrite decide_True by (split; [reflexivity|done]). }
  assert (Forall (λ r, status r = Canjeado) (filter (id_is i) (tickets o1)))
    as Hall.
  { rewrite F1. apply Forall_fmap, Forall_forall.
    intros r [_ Hr]%list_elem_of_filter.
    pose proof (reachable_statuses_ok root t Hreach) as Hst.
    eapply Forall_forall in Hst; [|exact Hr].
    cbn. destruct Hst as [Hv|Hc].
    - by rewrite decide_True.
    - rewrite decide_False; [done|]. rewrite Hc. apply not_eq_sym.
      apply Valido_neq_Canjeado. }
  assert (filter (id_is i) (tickets o1) ≠ []) as Hrows1.
  { rewrite F1. by intros ?%fmap_nil_inv. }
  rewrite root_redeem_value by done. rewrite decide_False; [done|].
  intros (r & Hr & Hid & Hv)%Exists_exists.
  assert (r ∈ filter (id_is i) (run root qs (tickets o1))) as Hin.
  { by apply list_elem_of_filter. }
  rewrite run_rows_redeemed in Hin by done.
  eapply Forall_forall in Hall; [|exact Hin].
  rewrite Hv in Hall. by destruct Valido_neq_Canjeado.
Qed.

Lemma root_never_redeems_twice_witness :
  value (handle root env0 (POST_tickets_redeem (Some "u1"))
           (run root [(env0, POST_tickets_validate (Some "u1"));
                      (env0, POST_tickets_redeem (Some "u1"))]
              (tickets (handle root env0 (POST_tickets_redeem (Some "u1"))
                          [ana Valido])))) =
    Response 400 (JError "Ticket no encontrado o ya fue canjeado").
Proof.
  apply (root_never_redeems_twice [ana Valido] env0 "u1"
           [(env0, POST_tickets_validate (Some "u1"));
            (env0, POST_tickets_redeem (Some "u1"))] env0).
  - exact reachable_ana.
  - reflexivity.
  - repeat apply Forall_cons_2; [discriminate..|apply Forall_nil_2].
Defined.

(** X11. Under [server/index.js] a ticket can be redeemed as often as
    asked: when a row has the id, a redeem request for it is answered 200
    after any run of requests that does not delete the id, earlier redeem
    requests for the same id included. *)
Theorem server_redeems_as_often_as_asked t i qs e :
  i ≠ "" → Exists (id_is i) t →
  Forall (λ eq, ¬ deletes i eq.2) qs →
  code (value (handle server e (POST_tickets_redeem (Some i))
                 (run server qs t))) = 200.
Proof.
  intros Hi Hex Hqs.
  assert (filter (id_is i) (run server qs t) ≠ []) as Hrows.
  { apply run_keeps_rows; [|done]. rewrite filter_nil_iff. by intros Hn. }
  rewrite server_redeem_value by done.
  rewrite decide_True; [done|]. rewrite filter_nil_iff in Hrows.
  by destruct (decide (Exists (id_is i) (run server qs t))).
Qed.

Lemma server_redeems_as_often_as_asked_witness :
  code (value (handle server env0 (POST_tickets_redeem (Some "u1"))
                 (run server [(env0, POST_tickets_redeem (Some "u1"));
                              (env0, POST_tickets_redeem (Some "u1"))]
                    [ana Valido]))) = 200.
Proof.
  apply (server_redeems_as_often_as_asked [ana Valido] "u1"
           [(env0, POST_tickets_redeem (Some "u1"));
            (env0, POST_tickets_redeem (Some "u1"))] env0).
  - discriminate.
  - apply Exists_cons. by left.
  - repeat apply Forall_cons_2; [discriminate..|apply Forall_nil_2].
Defined.

(** X12. Validate as a check before redeeming.  On a reachable table, when
    validate answers [valid = true] for an id, a redeem request for that id
    is answered 200, in both applications; under [index.js] the converse
    holds too, so there validate says [valid = true] exactly when redeem
    would succeed. *)
Theorem validate_announces_redeem a t e1 e2 i :
  reachable a t → i ≠ "" →
  let valid :=
    answers_valid (value (handle a e1 (POST_tickets_validate (Some i)) t)) in
  let redeemed :=
    code (value (handle a e2 (POST_tickets_redeem (Some i)) t)) in
  (valid = true → redeemed = 200) ∧
  (a = root → redeemed = 200 → valid = true).
Proof.
  intros Hreach Hi. cbn zeta.
  pose proof (reachable_primary_key a t Hreach) as Hpk.
  pose proof (reachable_statuses_ok a t Hreach) as Hst.
  rewrite validate_value by done. unfold answers_valid, validation. cbn [body].
  split.
  - destruct (lookup_id i t) as [r|] eqn:Hl; [|done].
    apply lookup_id_Some in Hl as [Hr Hid]; [|done].
    case_decide as Hc; [by destruct a|]. intros _.
    eapply Forall_forall in Hst; [|exact Hr].
    destruct Hst as [Hv|?]; [|done].
    destruct a.
    + rewrite root_redeem_value by done. rewrite decide_True; [done|].
      apply Exists_exists. by exists r.
    + rewrite server_redeem_value by done. rewrite decide_True; [done|].
      apply Exists_exists. by exists r.
  - intros -> Hok. rewrite root_redeem_value in Hok by done.
    case_decide as Hex; [|done].
    apply Exists_exists in Hex as (r & Hr & Hid & Hv).
    rewrite (proj2 (lookup_id_Some t i r Hpk)) by done.
    rewrite decide_False; [done|]. rewrite Hv. apply Valido_neq_Canjeado.
Qed.

Lemma validate_announces_redeem_witness :
  let valid :=
    answers_valid
      (value (handle root env0 (POST_tickets_validate (Some "u1")) [ana Valido])) in
  let redeemed :=
    code (value (handle root env0 (POST_tickets_redeem (Some "u1")) [ana Valido])) in
  (valid = true → redeemed = 200) ∧
  (root = root → redeemed = 200 → valid = true).
Proof.
  apply (validate_announces_redeem root [ana Valido] env0 env0 "u1").
  - exact reachable_ana.
  - discriminate.
Defined.

(** ** Delete, and what follows it *)

Lemma delete_value a e i t :
  value (handle a e (DELETE_tickets_id i) t) =
    if decide (Exists (id_is i) t)
    then Response 200
           (JMessage (match a with root => None | server => Some true end)
                     "Ticket eliminado exitosamente")
    else Response 404 (JError "Ticket no encontrado").
Proof.
  destruct a; cbn; run_M.
  all: destruct (decide (length (filter (id_is i) t) = 0)) as [H0|H0];
    cbn; rewrite changes_zero_iff in H0; by case_decide.
Qed.

Lemma no_rows_with_deleted_id i t :
  filter (id_is i) (filter (λ r, id r ≠ i) t) = [].
Proof.
  apply filter_nil_iff. intros (r & Hr & Hid)%Exists_exists.
  apply list_elem_of_filter in Hr as [Hne _]. done.
Qed.

Lemma filter_all {A} (P : A → Prop) `{∀ x, Decision (P x)} (l : list A) :
  Forall P l → filter P l = l.
Proof.
  induction 1 as [|x l Hx Hl IH]; [done|].
  by rewrite filter_cons_True, IH.
Qed.

(** X13. After a delete request for an id, whatever its answer, the id is
    gone for every handler: get-by-id answers 404, validate answers "Ticket
    no encontrado" with no ticket, redeem fails (400 under [index.js], 404
    under [server/index.js]), and a second delete request answers 404 and
    changes nothing. *)
Theorem deleted_ticket_is_gone a e e1 e2 e3 e4 i t :
  i ≠ "" →
  let t' := tickets (handle a e (DELETE_tickets_id i) t) in
  value (handle a e1 (GET_tickets_id i) t') =
    Response 404 (JError "Ticket no encontrado") ∧
  value (handle a e2 (POST_tickets_validate (Some i)) t') =
    Response 200 (JValidation false None "Ticket no encontrado" None) ∧
  code (value (handle a e3 (POST_tickets_redeem (Some i)) t')) =
    match a with root => 400 | server => 404 end ∧
  value (handle a e4 (DELETE_tickets_id i) t') =
    Response 404 (JError "Ticket no encontrado") ∧
  tickets (handle a e4 (DELETE_tickets_id i) t') = t'.
Proof.
  intros Hi t'. unfold t'. clear t'. rewrite (tickets_delete a e t i).
  pose proof (no_rows_with_deleted_id i t) as Hgone.
  assert (¬ Exists (id_is i) (filter (λ r, id r ≠ i) t)) as Hno.
  { by rewrite <-filter_nil_iff. }
  split_and!.
  - rewrite get_tickets_id_value. unfold lookup_id. by rewrite Hgone.
  - rewrite validate_value by done. unfold lookup_id. by rewrite Hgone.
  - destruct a.
    + rewrite root_redeem_value by done. rewrite decide_False; [done|].
      intros (r & Hr & Hid & _)%Exists_exists. apply Hno, Exists_exists.
      by exists r.
    + rewrite server_redeem_value by done. by rewrite decide_False.
  - rewrite delete_value. by rewrite decide_False.
  - rewrite tickets_delete. apply filter_all, Forall_forall.
    intros r Hr%list_elem_of_filter. apply Hr.
Qed.

Lemma deleted_ticket_is_gone_witness :
  let t' := tickets (handle server env0 (DELETE_tickets_id "u1") [ana Valido; bo]) in
  value (handle server env0 (GET_tickets_id "u1") t') =
    Response 404 (JError "Ticket no encontrado") ∧
  value (handle server env0 (POST_tickets_validate (Some "u1")) t') =
    Response 200 (JValidation false None "Ticket no encontrado" None) ∧
  code (value (handle server env0 (POST_tickets_redeem (Some "u1")) t')) = 404 ∧
  value (handle server env0 (DELETE_tickets_id "u1") t') =
    Response 404 (JError "Ticket no encontrado") ∧
  tickets (handle server env0 (DELETE_tickets_id "u1") t') = t'.
Proof.
  apply (deleted_ticket_is_gone server env0 env0 env0 env0 env0 "u1"
           [ana Valido; bo]).
  discriminate.
Defined.

Lemma primary_key_split before r after :
  primary_key (before ++ r :: after) →
  ∀ r', r' ∈ before ++ after → id r' ≠ id r.
Proof.
  unfold primary_key. rewrite fmap_app, fmap_cons.
  intros (_ & Hdisj & Hnd)%NoDup_app r' Hr' Heq.
  apply NoDup_cons in Hnd as [Hnotin _].
  apply elem_of_app in Hr' as [Hb|Ha].
  - apply (Hdisj (id r')); [by apply list_elem_of_fmap_2|].
    rewrite Heq. apply list_elem_of_here.
  - apply Hnotin. rewrite <-Heq. by apply list_elem_of_fmap_2.
Qed.

(** X14. On a table either application can reach, a delete request that is
    answered 200 removes exactly one row, the one with the id, and keeps
    the rows before and after it in their order. *)
Theorem delete_removes_one_row a t e i :
  let o := handle a e (DELETE_tickets_id i) t in
  reachable a t → code (value o) = 200 →
  ∃ r before after,
    id r = i ∧ t = before ++ r :: after ∧ tickets o = before ++ after ∧
    length t = S (length (tickets o)).
Proof.
  intros o Hreach Hok. unfold o in *. clear o.
  rewrite delete_value in Hok. case_decide as Hex; [clear Hok|done].
  apply Exists_exists in Hex as (r & Hr & Hid).
  apply list_elem_of_split in Hr as (before & after & ->).
  pose proof (reachable_primary_key a _ Hreach) as Hpk.
  assert (∀ r', r' ∈ before ++ after → id r' ≠ i) as Hother.
  { unfold id_is in Hid. rewrite <-Hid. by apply primary_key_split. }
  exists r, before, after. rewrite tickets_delete.
  assert (filter (λ r0, id r0 ≠ i) (before ++ r :: after) = before ++ after)
    as ->.
  { rewrite filter_app, filter_cons_False by (by intros Hn; apply Hn).
    rewrite !filter_all; [done| |].
    - apply Forall_forall. intros r' Hr'. apply Hother, elem_of_app. by right.
    - apply Forall_forall. intros r' Hr'. apply Hother, elem_of_app. by left. }
  split_and!; try done. rewrite !length_app. cbn. lia.
Qed.

Lemma delete_removes_one_row_witness :
  let o := handle server env0 (DELETE_tickets_id "u1") [ana Valido; bo] in
  ∃ r before after,
    id r = "u1" ∧ [ana Valido; bo] = before ++ r :: after ∧
    tickets o = before ++ after ∧
    length [ana Valido; bo] = S (length (tickets o)).
Proof.
  apply (delete_removes_one_row server [ana Valido; bo] env0 "u1").
  - exact reachable_ana_bo.
  - reflexivity.
Defined.

(** ** List after create *)

(** X15. Most recent first: when a create request is accepted at a
    database time later than the [created_at] of every row already stored,
    the list request answers next with the new ticket in first place,
    followed by the earlier rows. *)
Theorem newest_ticket_is_listed_first a e bn be en t e' :
  let o := handle a e (POST_tickets bn be en) t in
  code (value o) = 200 →
  Forall (λ r, String.le (created_at r) (CURRENT_TIMESTAMP e) ∧
               created_at r ≠ CURRENT_TIMESTAMP e) t →
  ∃ row rest,
    value (handle a e' GET_tickets (tickets o)) =
      Response 200 (JTickets (row :: rest)) ∧
    id row = uuidv4 e ∧ lookup_id (uuidv4 e) (tickets o) = Some row ∧
    rest ≡ₚ t.
Proof.
  intros o Hok Hold.
  destruct (post_tickets_cases a e bn be en t)
    as [(Hno & _)|(qr & _ & _ & _ & Hfresh & _ & Ht)]; [done|].
  fold o in Ht. set (row0 := created_row e bn be en qr) in *.
  rewrite get_tickets_value.
  pose proof (order_by_created_at_desc_Permutation (tickets o)) as Hperm.
  pose proof (order_by_created_at_desc_StronglySorted (tickets o)) as Hsort.
  destruct (order_by_created_at_desc (tickets o)) as [|h rest] eqn:Hrows.
  { rewrite Ht in Hperm. apply Permutation_nil_l in Hperm.
    by destruct t. }
  assert (row0 ∈ h :: rest) as Hin.
  { rewrite Hperm, Ht. apply elem_of_app. right. apply list_elem_of_here. }
  assert (h ∈ t ++ [row0]) as Hh.
  { rewrite <-Ht, <-Hperm. apply list_elem_of_here. }
  assert (h = row0) as ->.
  { apply elem_of_app in Hh as [Hh|Hh%list_elem_of_singleton]; [|done].
    apply elem_of_cons in Hin as [->|Hin]; [done|].
    apply StronglySorted_inv in Hsort as [_ Hall].
    eapply Forall_forall in Hall; [|exact Hin].
    eapply Forall_forall in Hold; [|exact Hh].
    destruct Hold as [Hle Hne]. destruct Hne.
    by apply (anti_symm String.le). }
  exists row0, rest. split_and!; try done.
  - unfold lookup_id.
    rewrite Ht, filter_app, (proj2 (filter_nil_iff _ _) Hfresh).
    by rewrite filter_cons_True.
  - apply (Permutation_cons_inv (a := row0)).
    rewrite Hperm, Ht. apply Permutation_app_comm.
Qed.

Lemma newest_ticket_is_listed_first_witness :
  let o := handle root env1 (POST_tickets (Some "Bo") None (Some "Opera"))
             [ana Valido] in
  ∃ row rest,
    value (handle root env0 GET_tickets (tickets o)) =
      Response 200 (JTickets (row :: rest)) ∧
    id row = "u2" ∧ lookup_id "u2" (tickets o) = Some row ∧
    rest ≡ₚ [ana Valido].
Proof.
  apply (newest_ticket_is_listed_first root env1 (Some "Bo") None
           (Some "Opera") [ana Valido] env0).
  - reflexivity.
  - apply Forall_singleton. split; [by vm_compute|discriminate].
Defined.

(** ** Redeem, when it succeeds *)

(** X16. On a table either application can reach, a redeem request that
    is answered 200 has sent one statement to the store, an [UPDATE] and no
    [SELECT] before it, and has written exactly one row, the one with the
    id: its status is now [Canjeado], its other fields and all other rows
    are as they were.  Under [index.js] that row was [Valido] before. *)
Theorem redeem_writes_one_row a t e i :
  let o := handle a e (POST_tickets_redeem (Some i)) t in
  reachable a t → code (value o) = 200 →
  ∃ r before after,
    id r = i ∧ t = before ++ r :: after ∧
    tickets o = before ++ set_status Canjeado r :: after ∧
    (a = root → status r = Valido) ∧
    effects o =
      [DbRun (match a with
              | root => UPDATE_status_WHERE_id_AND_status Canjeado i Valido
              | server => UPDATE_status_WHERE_id Canjeado i
              end)].
Proof.
  intros o Hreach Hok. unfold o in *. clear o.
  assert (i ≠ "") as Hi.
  { intros ->. destruct a; by vm_compute in Hok. }
  assert (∃ r, r ∈ t ∧ id r = i ∧ (a = root → status r = Valido))
    as (r & Hr & Hid & Hv).
  { destruct a.
    - rewrite root_redeem_value in Hok by done. case_decide as Hex; [|done].
      apply Exists_exists in Hex as (r & Hr & Hid & Hv). by exists r.
    - rewrite server_redeem_value in Hok by done. case_decide as Hex; [|done].
      apply Exists_exists in Hex as (r & Hr & Hid). by exists r. }
  apply list_elem_of_split in Hr as (before & after & ->).
  pose proof (reachable_primary_key a _ Hreach) as Hpk.
  pose proof (primary_key_split before r after Hpk) as Hother.
  exists r, before, after. split_and!; try done.
  - rewrite tickets_redeem, falsy_Some_false by done. cbn [str].
    rewrite fmap_app, fmap_cons, decide_True by done. f_equal; [|f_equal].
    + rewrite <-(list_fmap_id before) at 2. apply list_fmap_ext.
      intros _ r' Hr'%list_elem_of_lookup_2. rewrite decide_False; [done|].
      rewrite <-Hid. apply Hother, elem_of_app. by left.
    + destruct a; [|done]. apply redeem_row_valid. by apply Hv.
    + rewrite <-(list_fmap_id after) at 2. apply list_fmap_ext.
      intros _ r' Hr'%list_elem_of_lookup_2. rewrite decide_False; [done|].
      rewrite <-Hid. apply Hother, elem_of_app. by right.
  - destruct a; cbn; run_M; rewrite bool_decide_eq_false_2 by done; cbn;
      by case_decide.
Qed.

Lemma redeem_writes_one_row_witness :
  let o := handle server env0 (POST_tickets_redeem (Some "u2")) [ana Valido; bo] in
  ∃ r before after,
    id r = "u2" ∧ [ana Valido; bo] = before ++ r :: after ∧
    tickets o = before ++ set_status Canjeado r :: after ∧
    (server = root → status r = Valido) ∧
    effects o = [DbRun (UPDATE_status_WHERE_id Canjeado "u2")].
Proof.
  apply (redeem_writes_one_row server [ana Valido; bo] env0 "u2").
  - exact reachable_ana_bo.
  - reflexivity.
Defined.
